(** * mfl_data: the alternate-position evaluator, the floor-price cache
      and the listing preload

    A shallow embedding of [mfl_market_viewer.py] and
    [pages/mfl_scouting.py].

    Numbers.  The Python code computes ratings and penalties in binary64
    floats and integers.  The evaluator is modelled twice.  Module
    [AltEvaluator] takes the interpreter's numbers and operations as
    parameters, so that its theorems speak of the ratings as the code
    computes them; it is instantiated with exact rationals and with
    binary64.  Module [AltPosition] is the evaluator with exact rational
    arithmetic ([Q]); it carries the properties of the returned values that
    do not depend on how a rating was computed.  Prices and times are
    rationals; integers that the code keeps as integers (the player's
    overall, age, the rounded results) are [Z].  Not-a-number values are
    outside the model.

    Dictionaries.  A dict that the code iterates over is an association
    list in insertion order; a dict that is only looked up is a [gmap].
    [None] is [option]'s [None]. *)

From Stdlib Require Import ZArith QArith Qround Lqa Lia.
From stdpp Require Import base strings gmap list pretty.
From Corelib Require SpecFloat.

(** ** Python's numeric built-ins used by the code *)

Module Numeric.

(** [max(0, x)]: the built-in keeps its first argument unless a later one
    is strictly greater. *)
Definition py_max0 (x : Q) : Q :=
  if Qlt_le_dec 0 x then x else 0%Q.

(** [int(round(x))]: Python 3 rounds to the nearest integer and a tie
    goes to the even neighbour. *)
Definition py_round (q : Q) : Z :=
  let f := Qfloor q in
  match Qcompare (q - inject_Z f)%Q (1 # 2)%Q with
  | Lt => f
  | Gt => (f + 1)%Z
  | Eq => if Z.even f then f else (f + 1)%Z
  end.

(** [q] lies exactly halfway between two consecutive integers. *)
Definition half_integer (q : Q) : Prop :=
  (q - inject_Z (Qfloor q) == 1 # 2)%Q.

Lemma py_max0_nonneg (x : Q) : (0 <= py_max0 x)%Q.
Proof.
  unfold py_max0. destruct (Qlt_le_dec 0 x) as [H|H].
  - apply Qlt_le_weak, H.
  - apply Qle_refl.
Qed.

Lemma inject_Z_succ (z : Z) : (inject_Z (z + 1) == inject_Z z + 1)%Q.
Proof. rewrite inject_Z_plus. reflexivity. Qed.

Lemma frac_bounds (q : Q) :
  (0 <= q - inject_Z (Qfloor q))%Q ∧ (q - inject_Z (Qfloor q) < 1)%Q.
Proof.
  pose proof (Qfloor_le q) as Hlo.
  pose proof (Qlt_floor q) as Hhi.
  rewrite inject_Z_succ in Hhi.
  split; lra.
Qed.



(** The floor of a rational is the only integer within one below it. *)
Lemma Qfloor_unique (q : Q) (z : Z) :
  (inject_Z z <= q)%Q → (q < inject_Z z + 1)%Q → Qfloor q = z.
Proof.
  intros Hlo Hhi.
  pose proof (Qfloor_le q) as Flo.
  pose proof (Qlt_floor q) as Fhi.
  rewrite inject_Z_succ in Fhi.
  assert (Qfloor q < z + 1)%Z as H1.
  { rewrite Zlt_Qlt, inject_Z_succ. lra. }
  assert (z < Qfloor q + 1)%Z as H2.
  { rewrite Zlt_Qlt, inject_Z_succ. lra. }
  lia.
Qed.

Lemma Qfloor_minus_Z (q : Q) (n : Z) :
  Qfloor (q - inject_Z n) = (Qfloor q - n)%Z.
Proof.
  destruct (frac_bounds q) as [Hlo Hhi].
  assert (inject_Z (Qfloor q - n) == inject_Z (Qfloor q) - inject_Z n)%Q as E.
  { unfold Z.sub. rewrite inject_Z_plus, inject_Z_opp. reflexivity. }
  apply Qfloor_unique; rewrite E; lra.
Qed.

Lemma frac_minus_Z (q : Q) (n : Z) :
  (q - inject_Z n - inject_Z (Qfloor (q - inject_Z n))
   == q - inject_Z (Qfloor q))%Q.
Proof.
  rewrite Qfloor_minus_Z.
  unfold Z.sub. rewrite inject_Z_plus, inject_Z_opp. lra.
Qed.

(** Rounding commutes with subtracting an integer, except on a tie when
    the integer is odd: the tie then goes to the other neighbour. *)
Lemma py_round_minus_Z (q : Q) (n : Z) :
  ¬ half_integer q ∨ Z.even n = true →
  py_round (q - inject_Z n) = (py_round q - n)%Z.
Proof.
  intros Hside. unfold py_round.
  rewrite (Qcompare_comp _ _ (frac_minus_Z q n) _ _ (Qeq_refl (1 # 2))).
  rewrite Qfloor_minus_Z.
  destruct (Qcompare_spec (q - inject_Z (Qfloor q)) (1 # 2)) as [He|Hl|Hg];
    [|lia|lia].
  destruct Hside as [Hn|Hev]; [contradiction|].
  rewrite Z.even_sub, Hev.
  destruct (Z.even (Qfloor q)); simpl; lia.
Qed.

Lemma py_round_minus_Z_tie (q : Q) (n : Z) :
  half_integer q → Z.even n = false →
  py_round (q - inject_Z n) = (py_round q - n + 1)%Z ∨
  py_round (q - inject_Z n) = (py_round q - n - 1)%Z.
Proof.
  intros Hh Hodd. unfold py_round.
  rewrite (Qcompare_comp _ _ (frac_minus_Z q n) _ _ (Qeq_refl (1 # 2))).
  rewrite Qfloor_minus_Z.
  apply Qeq_alt in Hh. rewrite Hh.
  rewrite Z.even_sub, Hodd.
  destruct (Z.even (Qfloor q)); simpl; [left|right]; lia.
Qed.


End Numeric.

(** ** AltPositionEvaluator: [calculate_best_alt_ovr], exact arithmetic

    The function is textually the same in both pages. *)

Module AltPosition.
Import Numeric.

(** The returned dict, keys [best_alt_position], [best_alt_ovr] and
    [delta_to_overall]. *)
Record result := mk_result {
  best_alt_position : option string;
  best_alt_ovr : Z;
  delta_to_overall : Z
}.

Section Evaluator.

(** [weightings_dict]: position -> (attribute -> weight), iterated in
    insertion order.  [familiarity_dict]: (primary, assigned) -> penalty;
    its keys are pairs of CSV cells, so a [None] primary is never a key. *)
Variable weightings_dict : list (string * list (string * Q)).
Variable familiarity_dict : gmap (string * string) Q.

(** [familiarity_dict.get((primary, pos), 0)] *)
Definition familiarity_get (primary : option string) (pos : string) : Q :=
  match primary with
  | Some p => default 0%Q (familiarity_dict !! (p, pos))
  | None => 0%Q
  end.

(** [sum(player_stats.get(attr, 0) * weights.get(attr, 0) for attr in weights)] *)
Definition weighted_sum (player_stats : gmap string Q)
    (weights : list (string * Q)) : Q :=
  fold_left
    (λ acc aw, (acc + default 0%Q (player_stats !! aw.1) * aw.2)%Q)
    weights 0%Q.

(** Lines 103-108: the [if]/[elif]/[else] that picks the penalty. *)
Definition penalty (primary secondary tertiary : option string)
    (pos : string) : Q :=
  if decide (Some pos = primary) then 0%Q
  else if decide (Some pos = secondary ∨ Some pos = tertiary) then (-1 # 1)%Q
  else familiarity_get primary pos.

Section Player.

Variable player_stats : gmap string Q.
Variables primary secondary tertiary : option string.

(** [alt_ovr = max(0, base_ovr + penalty)] for one entry of the table. *)
Definition alt_ovr (entry : string * list (string * Q)) : Q :=
  let base_ovr := (weighted_sum player_stats entry.2 / 100)%Q in
  py_max0 (base_ovr + penalty primary secondary tertiary entry.1)%Q.

(** One iteration of the loop over the pair of locals
    ([best_alt_ovr], [best_position]). *)
Definition visit (st : option Q * option string)
    (entry : string * list (string * Q)) : option Q * option string :=
  if decide (Some entry.1 = primary) then st
  else
    match st.1 with
    | None => (Some (alt_ovr entry), Some entry.1)
    | Some best =>
        if Qlt_le_dec best (alt_ovr entry)
        then (Some (alt_ovr entry), Some entry.1)
        else st
    end.

Definition scan_from (st : option Q * option string)
    (table : list (string * list (string * Q))) : option Q * option string :=
  fold_left visit table st.

(** The locals when the loop ends. *)
Definition scan : option Q * option string :=
  scan_from (None, None) weightings_dict.

Definition calculate_best_alt_ovr (overall : Z) : result :=
  match scan.1 with
  | None => mk_result primary overall 0
  | Some best =>
      if Qlt_le_dec (inject_Z overall) best
      then mk_result scan.2 (py_round best)
             (py_round (best - inject_Z overall))
      else mk_result primary overall 0
  end.



(** C5.  The penalty applied to a position [pos] of the table is 0 when
    [pos] is the primary position; it is -1 when [pos] is not the primary
    but is the secondary or the tertiary position; and otherwise it is the
    familiarity table's value for (primary, [pos]), or 0 when the table has
    no such pair (also when there is no primary).  The rating of an entry
    is computed with exactly this penalty. *)
Theorem penalty_priority (pos : string) :
  (Some pos = primary → penalty primary secondary tertiary pos = 0%Q) ∧
  (Some pos ≠ primary → Some pos = secondary ∨ Some pos = tertiary →
   penalty primary secondary tertiary pos = (-1 # 1)%Q) ∧
  (Some pos ≠ primary → Some pos ≠ secondary → Some pos ≠ tertiary →
   penalty primary secondary tertiary pos =
     match primary with
     | Some p => default 0%Q (familiarity_dict !! (p, pos))
     | None => 0%Q
     end) ∧
  (∀ weights,
     alt_ovr (pos, weights) =
       py_max0 (weighted_sum player_stats weights / 100
                + penalty primary secondary tertiary pos)%Q).
Proof.
  unfold penalty. repeat split.
  - intros Hp. by rewrite decide_True.
  - intros Hp Hst. rewrite decide_False by exact Hp. by rewrite decide_True.
  - intros Hp Hs Ht. rewrite decide_False by exact Hp.
    rewrite decide_False by (intros [?|?]; contradiction).
    reflexivity.
Qed.




End Player.
End Evaluator.

(** *** What the result does not depend on *)

Section Independence.

Variable weightings_dict : list (string * list (string * Q)).

Lemma fold_left_ext_in {A B : Type} (f g : A → B → A) (l : list B) :
  (∀ a x, x ∈ l → f a x = g a x) →
  ∀ a, fold_left f l a = fold_left g l a.
Proof.
  induction l as [|x l IH]; intros Hfg a; [reflexivity|]. simpl.
  rewrite Hfg by (apply elem_of_cons; by left).
  apply IH. intros a' y Hy. apply Hfg. apply elem_of_cons. by right.
Qed.

(** Two players, or two familiarity tables, under which every entry of the
    table gets the same rating give the same result. *)
Lemma calculate_ext (fam fam' : gmap (string * string) Q)
    (stats stats' : gmap string Q) (primary secondary tertiary : option string)
    (overall : Z) :
  (∀ e, e ∈ weightings_dict →
        alt_ovr fam stats primary secondary tertiary e =
        alt_ovr fam' stats' primary secondary tertiary e) →
  calculate_best_alt_ovr weightings_dict fam stats primary secondary tertiary
    overall =
  calculate_best_alt_ovr weightings_dict fam' stats' primary secondary tertiary
    overall.
Proof.
  intros Halt. unfold calculate_best_alt_ovr, scan, scan_from.
  rewrite (fold_left_ext_in
             (visit fam stats primary secondary tertiary)
             (visit fam' stats' primary secondary tertiary)); [reflexivity|].
  intros st e He. unfold visit. by rewrite (Halt e He).
Qed.

(** Only the attributes that carry a weight in the table matter, and a
    missing attribute counts as 0: two stat dicts that read the same, with
    default 0, on every weighted attribute give the same result. *)
Theorem unweighted_attributes_ignored (fam : gmap (string * string) Q)
    (stats stats' : gmap string Q) (primary secondary tertiary : option string)
    (overall : Z) :
  (∀ pos weights attr w,
     (pos, weights) ∈ weightings_dict → (attr, w) ∈ weights →
     default 0%Q (stats !! attr) = default 0%Q (stats' !! attr)) →
  calculate_best_alt_ovr weightings_dict fam stats primary secondary tertiary
    overall =
  calculate_best_alt_ovr weightings_dict fam stats' primary secondary tertiary
    overall.
Proof.
  intros Hsame. apply calculate_ext. intros [pos weights] He.
  unfold alt_ovr, weighted_sum. simpl.
  rewrite (fold_left_ext_in
             (λ acc aw, (acc + default 0%Q (stats !! aw.1) * aw.2)%Q)
             (λ acc aw, (acc + default 0%Q (stats' !! aw.1) * aw.2)%Q));
    [reflexivity|].
  intros acc [attr w] Hin. simpl. by rewrite (Hsame pos weights attr w He Hin).
Qed.

(** A player with no primary position (no listed positions) is rated
    without the familiarity table: every lookup in it defaults to 0. *)
Theorem no_primary_ignores_familiarity (fam fam' : gmap (string * string) Q)
    (stats : gmap string Q) (secondary tertiary : option string) (overall : Z) :
  calculate_best_alt_ovr weightings_dict fam stats None secondary tertiary
    overall =
  calculate_best_alt_ovr weightings_dict fam' stats None secondary tertiary
    overall.
Proof.
  apply calculate_ext. intros e _. unfold alt_ovr, penalty.
  destruct (decide (Some e.1 = None)) as [Hn|_]; [discriminate|].
  by destruct (decide (Some e.1 = secondary ∨ Some e.1 = tertiary)).
Qed.

End Independence.

(** *** Concrete players *)

(** The specification's end-to-end example: a centre-back whose secondary
    position is CDM, overall 70. *)
Definition example_weightings : list (string * list (string * Q)) :=
  [ ("CB", [("DEF", 60%Q); ("PHY", 40%Q)]);
    ("CDM", [("PAS", 30%Q); ("DEF", 45%Q); ("PHY", 26%Q)]);
    ("ST", [("SHO", 70%Q); ("PAC", 30%Q)]) ].

Definition example_familiarity : gmap (string * string) Q :=
  {[ ("CB", "ST") := (-20 # 1)%Q ]}.

Definition example_stats : gmap string Q :=
  list_to_map
    [ ("PAC", 60%Q); ("SHO", 40%Q); ("PAS", 65%Q);
      ("DRI", 55%Q); ("DEF", 80%Q); ("PHY", 75%Q) ].

Definition example_player (overall : Z) : result :=
  calculate_best_alt_ovr example_weightings example_familiarity
    example_stats (Some "CB") (Some "CDM") None overall.

(** A striker-only table in which a shooting/pace player rates 70.5. *)
Definition tie_weightings : list (string * list (string * Q)) :=
  [ ("ST", [("PAC", 50%Q); ("SHO", 50%Q)]) ].

Definition tie_stats : gmap string Q :=
  list_to_map [ ("PAC", 71%Q); ("SHO", 70%Q) ].

Definition tie_player (overall : Z) : result :=
  calculate_best_alt_ovr tie_weightings ∅ tie_stats (Some "CB") None None
    overall.

(** A striker-only table in which the player rates 70.25. *)
Definition quarter_weightings : list (string * list (string * Q)) :=
  [ ("ST", [("PAC", 75%Q); ("SHO", 25%Q)]) ].

Definition quarter_stats : gmap string Q :=
  list_to_map [ ("PAC", 70%Q); ("SHO", 71%Q) ].

Definition quarter_player (overall : Z) : result :=
  calculate_best_alt_ovr quarter_weightings ∅ quarter_stats (Some "CB")
    None None overall.

Example example_player_70 :
  example_player 70 = mk_result (Some "CDM") 74 4.
Proof. vm_compute. reflexivity. Qed.

Example example_player_80 :
  example_player 80 = mk_result (Some "CB") 80 0.
Proof. vm_compute. reflexivity. Qed.

Example tie_player_69 : tie_player 69 = mk_result (Some "ST") 70 2.
Proof. vm_compute. reflexivity. Qed.

Example quarter_player_70 : quarter_player 70 = mk_result (Some "ST") 70 0.
Proof. vm_compute. reflexivity. Qed.


(** C1 fails as stated: a rating of 70.5 against an overall of 69 returns
    overall 70 (the tie goes to the even 70) and delta 2 (the difference
    1.5 is a tie too and goes to the even 2), and 70 - 69 is 1. *)
Lemma delta_differs_on_tie :
  tie_player 69 = mk_result (Some "ST") 70 2 ∧
  (0 < delta_to_overall (tie_player 69))%Z ∧
  delta_to_overall (tie_player 69) ≠ (best_alt_ovr (tie_player 69) - 69)%Z.
Proof.
  rewrite tie_player_69. simpl. split; [reflexivity|]. split; [lia|lia].
Qed.

(** The example table weighs PAS, DEF, PHY, SHO and PAC only: dribbling
    does not matter. *)
Lemma unweighted_attributes_ignored_witness :
  example_player 70 =
  calculate_best_alt_ovr example_weightings example_familiarity
    (<["DRI" := 99%Q]> example_stats) (Some "CB") (Some "CDM") None 70.
Proof.
  unfold example_player.
  apply (unweighted_attributes_ignored example_weightings example_familiarity
           example_stats (<["DRI" := 99%Q]> example_stats)
           (Some "CB") (Some "CDM") None 70).
  intros pos weights attr w Hpos Hattr.
  assert (attr ≠ "DRI") as Hne.
  { unfold example_weightings in Hpos.
    repeat (apply elem_of_cons in Hpos as [Hpos|Hpos];
            [injection Hpos as -> ->;
             repeat (apply elem_of_cons in Hattr as [Hattr|Hattr];
                     [injection Hattr as -> ->; discriminate|]);
             by apply elem_of_nil in Hattr|]).
    by apply elem_of_nil in Hpos. }
  by rewrite lookup_insert_ne.
Defined.

End AltPosition.

(** ** The evaluator over the interpreter's arithmetic

    [calculate_best_alt_ovr] once more, with the numbers of the Python
    run time (ints and binary64 floats other than not-a-number) and the
    operations the function applies to them taken as parameters.  What is
    proved here holds for the ratings as the interpreter computes them,
    rounding errors included; [py_sum] is a parameter too, because the
    built-in [sum] adds floats differently from one interpreter version
    to another. *)

Module AltEvaluator.

Section Arithmetic.

Variable num : Type.

(** An int as a number; [x * y], [x / y], [x + y], [x - y]; the built-in
    [sum]; [x < y] and [x <= y] ([x > y] is [y < x]); [int(round(x))]. *)
Variable of_int : Z → num.
Variable mul : num → num → num.
Variable div : num → num → num.
Variable add : num → num → num.
Variable sub : num → num → num.
Variable py_sum : list num → num.
Variable ltb : num → num → bool.
Variable leb : num → num → bool.
Variable py_round : num → Z.

(** The comparisons are those of a total order on the values, as they are
    for Python's ints and floats. *)
Definition ordered : Prop :=
  (∀ a, ltb a a = false) ∧
  (∀ a b c, ltb a b = true → ltb b c = true → ltb a c = true) ∧
  (∀ a b c, ltb a b = true → ltb a c = true ∨ ltb c b = true) ∧
  (∀ a b, leb a b = negb (ltb b a)).

Variable weightings_dict : list (string * list (string * num)).
Variable familiarity_dict : gmap (string * string) num.

(** [familiarity_dict.get((primary, pos), 0)] *)
Definition familiarity_get (primary : option string) (pos : string) : num :=
  match primary with
  | Some p => default (of_int 0) (familiarity_dict !! (p, pos))
  | None => of_int 0
  end.

(** [sum(player_stats.get(attr, 0) * weights.get(attr, 0) for attr in weights)] *)
Definition weighted_sum (player_stats : gmap string num)
    (weights : list (string * num)) : num :=
  py_sum
    ((λ aw, mul (default (of_int 0) (player_stats !! aw.1)) aw.2) <$> weights).

(** Lines 103-108. *)
Definition penalty (primary secondary tertiary : option string)
    (pos : string) : num :=
  if decide (Some pos = primary) then of_int 0
  else if decide (Some pos = secondary ∨ Some pos = tertiary) then of_int (-1)
  else familiarity_get primary pos.

(** [max(0, x)] *)
Definition py_max0 (x : num) : num :=
  if ltb (of_int 0) x then x else of_int 0.

Section Player.

Variable player_stats : gmap string num.
Variables primary secondary tertiary : option string.

(** [alt_ovr = max(0, weighted_sum / 100 + penalty)] *)
Definition alt_ovr (entry : string * list (string * num)) : num :=
  let base_ovr := div (weighted_sum player_stats entry.2) (of_int 100) in
  py_max0 (add base_ovr (penalty primary secondary tertiary entry.1)).

(** One iteration over the locals ([best_alt_ovr], [best_position]). *)
Definition visit (st : option num * option string)
    (entry : string * list (string * num)) : option num * option string :=
  if decide (Some entry.1 = primary) then st
  else
    match st.1 with
    | None => (Some (alt_ovr entry), Some entry.1)
    | Some best =>
        if ltb best (alt_ovr entry)
        then (Some (alt_ovr entry), Some entry.1)
        else st
    end.

Definition scan_from (st : option num * option string)
    (table : list (string * list (string * num))) :
    option num * option string :=
  fold_left visit table st.

Definition scan : option num * option string :=
  scan_from (None, None) weightings_dict.

Definition calculate_best_alt_ovr (overall : Z) : AltPosition.result :=
  match scan.1 with
  | None => AltPosition.mk_result primary overall 0
  | Some best =>
      if leb best (of_int overall)
      then AltPosition.mk_result primary overall 0
      else AltPosition.mk_result scan.2 (py_round best)
             (py_round (sub best (of_int overall)))
  end.

(** An entry the loop may select. *)
Definition candidate (entry : string * list (string * num)) : Prop :=
  Some entry.1 ≠ primary.

(** What the loop has found after the entries [table]: nothing when none
    is a candidate; otherwise a candidate that rates strictly above every
    candidate before it, and that no candidate after it rates strictly
    above. *)
Definition first_maximum (table : list (string * list (string * num)))
    (st : option num * option string) : Prop :=
  (st = (None, None) ∧ Forall (λ e, Some e.1 = primary) table) ∨
  (∃ l1 e l2,
      table = l1 ++ e :: l2 ∧
      st = (Some (alt_ovr e), Some e.1) ∧
      candidate e ∧
      (∀ e', e' ∈ l1 → candidate e' → ltb (alt_ovr e') (alt_ovr e) = true) ∧
      (∀ e', e' ∈ l2 → candidate e' → ltb (alt_ovr e) (alt_ovr e') = false)).

(** Where the locals come from, whatever the comparisons do: an entry of
    the table that is a candidate, or nothing. *)
Definition from_table (table : list (string * list (string * num)))
    (st : option num * option string) : Prop :=
  st = (None, None) ∨
  (∃ e, e ∈ table ∧ candidate e ∧ st = (Some (alt_ovr e), Some e.1)).

Lemma scan_from_snoc (st : option num * option string)
    (table : list (string * list (string * num)))
    (entry : string * list (string * num)) :
  scan_from st (table ++ [entry]) = visit (scan_from st table) entry.
Proof. unfold scan_from. by rewrite fold_left_app. Qed.

Lemma scan_from_no_candidate (table : list (string * list (string * num))) :
  Forall (λ e, Some e.1 = primary) table →
  ∀ st, scan_from st table = st.
Proof.
  induction 1 as [|e table He _ IH]; intros st; [reflexivity|].
  unfold scan_from. simpl. unfold visit at 2.
  rewrite decide_True by exact He. apply IH.
Qed.

Lemma scan_from_table (table : list (string * list (string * num))) :
  from_table table (scan_from (None, None) table).
Proof.
  induction table as [|entry table IH] using rev_ind; [by left|].
  rewrite scan_from_snoc. unfold visit.
  destruct (decide (Some entry.1 = primary)) as [_|Hcand].
  - destruct IH as [->|(e & He & Hc & ->)]; [by left|right].
    exists e. split; [|done]. apply elem_of_app. by left.
  - assert (entry ∈ table ++ [entry]) as Hin.
    { apply elem_of_app. right. by apply list_elem_of_singleton. }
    destruct IH as [->|(e & He & Hc & ->)]; simpl.
    + right. by exists entry.
    + destruct (ltb (alt_ovr e) (alt_ovr entry)).
      * right. by exists entry.
      * right. exists e. split; [|done]. apply elem_of_app. by left.
Qed.

(** The two shapes of the returned dict. *)
Lemma calculate_shapes (overall : Z) :
  calculate_best_alt_ovr overall = AltPosition.mk_result primary overall 0 ∨
  (∃ e, e ∈ weightings_dict ∧ candidate e ∧
        scan = (Some (alt_ovr e), Some e.1) ∧
        leb (alt_ovr e) (of_int overall) = false ∧
        calculate_best_alt_ovr overall =
          AltPosition.mk_result (Some e.1) (py_round (alt_ovr e))
            (py_round (sub (alt_ovr e) (of_int overall)))).
Proof.
  unfold calculate_best_alt_ovr.
  destruct (scan_from_table weightings_dict) as [Hst|(e & He & Hc & Hst)];
    fold scan in Hst; rewrite Hst; simpl; [by left|].
  destruct (leb (alt_ovr e) (of_int overall)) eqn:Hle; [by left|right].
  by exists e.
Qed.

(** C3.  When no position of the table differs from the primary, or the
    best rating the loop computed is at most the current overall, the
    function returns the primary position, the current overall and a
    delta of 0. *)
Theorem not_better_returns_primary (overall : Z) :
  Forall (λ e, Some e.1 = primary) weightings_dict ∨
  (∃ best, scan.1 = Some best ∧ leb best (of_int overall) = true) →
  calculate_best_alt_ovr overall = AltPosition.mk_result primary overall 0.
Proof.
  intros [Hnone|(best & Hb & Hle)]; unfold calculate_best_alt_ovr.
  - unfold scan. by rewrite (scan_from_no_candidate _ Hnone).
  - by rewrite Hb, Hle.
Qed.

(** The returned position is the primary position, or else the position
    of an entry of the table that is not the primary, and then the
    returned overall is the rounding of the rating computed for that
    entry. *)
Theorem returned_position_origin (overall : Z) :
  AltPosition.best_alt_position (calculate_best_alt_ovr overall) = primary ∨
  (∃ e, e ∈ weightings_dict ∧ Some e.1 ≠ primary ∧
        AltPosition.best_alt_position (calculate_best_alt_ovr overall)
          = Some e.1 ∧
        AltPosition.best_alt_ovr (calculate_best_alt_ovr overall)
          = py_round (alt_ovr e)).
Proof.
  destruct (calculate_shapes overall) as [->|(e & He & Hc & _ & _ & ->)];
    [by left|right].
  by exists e.
Qed.

Section Ordered.

Hypothesis Hord : ordered.

Lemma first_maximum_visit (table : list (string * list (string * num)))
    (st : option num * option string) (entry : string * list (string * num)) :
  first_maximum table st →
  first_maximum (table ++ [entry]) (visit st entry).
Proof.
  destruct Hord as (_ & Htrans & Hcotrans & _).
  intros Hinv. unfold visit.
  destruct (decide (Some entry.1 = primary)) as [Hprim|Hcand].
  - (* the primary position is skipped *)
    destruct Hinv as [[-> Hnone]|(l1 & e & l2 & -> & -> & He & Hlt & Hle)].
    + left. split; [reflexivity|].
      apply Forall_app. split; [exact Hnone|]. by constructor.
    + right. exists l1, e, (l2 ++ [entry]).
      split; [by rewrite <- app_assoc|].
      split; [reflexivity|]. split; [exact He|]. split; [exact Hlt|].
      intros e' Hin Hc. apply elem_of_app in Hin as [Hin|Hin].
      * by apply Hle.
      * apply list_elem_of_singleton in Hin as ->. contradiction.
  - destruct Hinv as [[-> Hnone]|(l1 & e & l2 & -> & -> & He & Hlt & Hle)];
      simpl.
    + (* the first candidate *)
      right. exists table, entry, []. split; [reflexivity|].
      split; [reflexivity|]. split; [exact Hcand|]. split.
      * intros e' Hin Hc. rewrite Forall_forall in Hnone.
        exfalso. by apply Hc, Hnone.
      * intros e' Hin. by apply elem_of_nil in Hin.
    + destruct (ltb (alt_ovr e) (alt_ovr entry)) eqn:Hgt.
      * (* strictly better: the new entry replaces the best *)
        right. exists (l1 ++ e :: l2), entry, [].
        split; [reflexivity|]. split; [reflexivity|].
        split; [exact Hcand|]. split.
        -- intros e' Hin Hc.
           apply elem_of_app in Hin as [Hin|Hin].
           ++ eapply Htrans; [by apply Hlt | exact Hgt].
           ++ apply elem_of_cons in Hin as [->|Hin]; [exact Hgt|].
              destruct (Hcotrans _ _ (alt_ovr e') Hgt) as [Hbad|Hok];
                [|exact Hok].
              rewrite (Hle e' Hin Hc) in Hbad. discriminate.
        -- intros e' Hin. by apply elem_of_nil in Hin.
      * (* not strictly better: the earlier best is kept *)
        right. exists l1, e, (l2 ++ [entry]).
        split; [by rewrite <- app_assoc|].
        split; [reflexivity|]. split; [exact He|]. split; [exact Hlt|].
        intros e' Hin Hc. apply elem_of_app in Hin as [Hin|Hin].
        -- by apply Hle.
        -- by apply list_elem_of_singleton in Hin as ->.
Qed.

Lemma scan_first_maximum : first_maximum weightings_dict scan.
Proof.
  unfold scan. induction weightings_dict as [|entry table IH] using rev_ind.
  - left. split; [reflexivity|constructor].
  - rewrite scan_from_snoc. by apply first_maximum_visit.
Qed.

(** No candidate rates strictly above the one the loop kept. *)
Lemma scan_dominates (e' : string * list (string * num)) :
  e' ∈ weightings_dict → candidate e' →
  ∃ e, e ∈ weightings_dict ∧ candidate e ∧
       scan = (Some (alt_ovr e), Some e.1) ∧
       ltb (alt_ovr e) (alt_ovr e') = false.
Proof.
  destruct Hord as (Hirr & Htrans & _ & _).
  intros Hin Hc.
  destruct scan_first_maximum
    as [[_ Hnone]|(l1 & e & l2 & Htab & Hst & He & Hlt & Hle)].
  - rewrite Forall_forall in Hnone. exfalso. by apply Hc, Hnone.
  - exists e. split.
    { rewrite Htab. apply elem_of_app. right. apply elem_of_cons. by left. }
    split; [exact He|]. split; [exact Hst|].
    rewrite Htab in Hin. apply elem_of_app in Hin as [Hin|Hin].
    + destruct (ltb (alt_ovr e) (alt_ovr e')) eqn:Hgt; [|reflexivity].
      rewrite <- (Hirr (alt_ovr e')). symmetry.
      eapply Htrans; [by apply Hlt|exact Hgt].
    + apply elem_of_cons in Hin as [->|Hin]; [apply Hirr|by apply Hle].
Qed.

(** C6.  When the loop ends, either no entry of the table is a candidate
    and nothing was selected, or the selected position belongs to an entry
    [e] of the table that is not the primary position, whose computed
    rating is strictly greater than that of every candidate before it in
    iteration order and greater than or equal to that of every candidate
    after it (so on a tie the first one is kept); and this is the position
    the function returns whenever that rating is above the current
    overall. *)
Theorem selected_is_first_maximum :
  (scan = (None, None) ∧ Forall (λ e, Some e.1 = primary) weightings_dict) ∨
  (∃ l1 e l2,
      weightings_dict = l1 ++ e :: l2 ∧
      scan = (Some (alt_ovr e), Some e.1) ∧
      Some e.1 ≠ primary ∧
      (∀ e', e' ∈ l1 → Some e'.1 ≠ primary →
             ltb (alt_ovr e') (alt_ovr e) = true) ∧
      (∀ e', e' ∈ l2 → Some e'.1 ≠ primary →
             leb (alt_ovr e') (alt_ovr e) = true) ∧
      (∀ overall, leb (alt_ovr e) (of_int overall) = false →
         AltPosition.best_alt_position (calculate_best_alt_ovr overall)
           = Some e.1)).
Proof.
  destruct scan_first_maximum
    as [[Hst Hnone]|(l1 & e & l2 & Htab & Hst & He & Hlt & Hle)].
  - left. by split.
  - right. exists l1, e, l2. repeat split; try assumption.
    + intros e' Hin Hc. destruct Hord as (_ & _ & _ & Hleb).
      by rewrite Hleb, (Hle e' Hin Hc).
    + intros overall Hov. unfold calculate_best_alt_ovr.
      rewrite Hst. simpl. by rewrite Hov.
Qed.


(** The function reports no improvement (primary position, current
    overall, delta 0) exactly when no entry of the table other than the
    primary position has a computed rating above the current overall. *)
Theorem no_improvement_exactly_when_none_better (overall : Z) :
  calculate_best_alt_ovr overall = AltPosition.mk_result primary overall 0 ↔
  (∀ e, e ∈ weightings_dict → Some e.1 ≠ primary →
        leb (alt_ovr e) (of_int overall) = true).
Proof.
  split.
  - intros Hres e' Hin Hc.
    destruct (scan_dominates e' Hin Hc) as (e & _ & He & Hst & Hge).
    destruct Hord as (_ & _ & Hcotrans & Hleb).
    assert (leb (alt_ovr e) (of_int overall) = true) as Hle.
    { unfold calculate_best_alt_ovr in Hres. rewrite Hst in Hres.
      simpl in Hres.
      destruct (leb (alt_ovr e) (of_int overall)); [reflexivity|].
      injection Hres as Hp _ _. by destruct He. }
    rewrite Hleb in Hle |- *.
    destruct (ltb (of_int overall) (alt_ovr e')) eqn:Hov; [|reflexivity].
    destruct (Hcotrans _ _ (alt_ovr e) Hov) as [Hbad|Hbad].
    + rewrite Hbad in Hle. discriminate.
    + rewrite Hge in Hbad. discriminate.
  - intros Hall.
    destruct (calculate_shapes overall) as [->|(e & He & Hc & _ & Hle & _)];
      [reflexivity|].
    rewrite (Hall e He Hc) in Hle. discriminate.
Qed.

End Ordered.
End Player.
End Arithmetic.

(** *** Exact arithmetic

    The parameters taken as the exact operations on rationals.  This is
    the evaluator of the module [AltPosition]. *)

Definition exact_ltb (a b : Q) : bool :=
  if Qlt_le_dec a b then true else false.

Definition exact_leb (a b : Q) : bool :=
  if Qlt_le_dec b a then false else true.

Definition exact_sum (l : list Q) : Q := fold_left Qplus l 0%Q.

Definition exact_alt_ovr (fam : gmap (string * string) Q)
    (stats : gmap string Q) (primary secondary tertiary : option string)
    (entry : string * list (string * Q)) : Q :=
  alt_ovr Q inject_Z Qmult Qdiv Qplus exact_sum exact_ltb fam stats
    primary secondary tertiary entry.

Definition exact_scan (table : list (string * list (string * Q)))
    (fam : gmap (string * string) Q) (stats : gmap string Q)
    (primary secondary tertiary : option string) : option Q * option string :=
  scan Q inject_Z Qmult Qdiv Qplus exact_sum exact_ltb table fam stats
    primary secondary tertiary.

Definition exact_calculate (table : list (string * list (string * Q)))
    (fam : gmap (string * string) Q) (stats : gmap string Q)
    (primary secondary tertiary : option string) (overall : Z) :
    AltPosition.result :=
  calculate_best_alt_ovr Q inject_Z Qmult Qdiv Qplus Qminus exact_sum
    exact_ltb exact_leb Numeric.py_round table fam stats
    primary secondary tertiary overall.

Lemma exact_ordered : ordered Q exact_ltb exact_leb.
Proof.
  unfold ordered, exact_ltb, exact_leb. repeat split.
  - intros a. destruct (Qlt_le_dec a a) as [H|_]; [|reflexivity].
    by apply Qlt_irrefl in H.
  - intros a b c Hab Hbc.
    destruct (Qlt_le_dec a b) as [H1|_]; [|discriminate].
    destruct (Qlt_le_dec b c) as [H2|_]; [|discriminate].
    destruct (Qlt_le_dec a c) as [_|H3]; [reflexivity|].
    exfalso. apply (Qlt_not_le a c); [|exact H3]. by apply (Qlt_trans _ b).
  - intros a b c Hab.
    destruct (Qlt_le_dec a b) as [H1|_]; [|discriminate].
    destruct (Qlt_le_dec a c) as [_|H2]; [by left|right].
    destruct (Qlt_le_dec c b) as [_|H3]; [reflexivity|].
    exfalso. apply (Qlt_not_le a b H1). by apply (Qle_trans _ c).
  - intros a b. by destruct (Qlt_le_dec b a).
Qed.

Lemma exact_sum_fmap {A : Type} (f : A → Q) (l : list A) :
  ∀ acc, fold_left Qplus (f <$> l) acc =
         fold_left (λ acc x, (acc + f x)%Q) l acc.
Proof. induction l as [|x l IH]; intros acc; [reflexivity|apply IH]. Qed.

Lemma exact_alt_ovr_agrees (fam : gmap (string * string) Q)
    (stats : gmap string Q) (primary secondary tertiary : option string)
    (entry : string * list (string * Q)) :
  exact_alt_ovr fam stats primary secondary tertiary entry =
  AltPosition.alt_ovr fam stats primary secondary tertiary entry.
Proof.
  unfold exact_alt_ovr, alt_ovr, AltPosition.alt_ovr, py_max0,
    Numeric.py_max0, weighted_sum, AltPosition.weighted_sum, exact_sum,
    exact_ltb.
  rewrite exact_sum_fmap.
  change (inject_Z 0) with 0%Q. change (inject_Z 100) with 100%Q.
  by destruct (Qlt_le_dec 0 _).
Qed.

(** With exact operations the evaluator is the one of [AltPosition]. *)
Lemma exact_calculate_agrees (table : list (string * list (string * Q)))
    (fam : gmap (string * string) Q) (stats : gmap string Q)
    (primary secondary tertiary : option string) (overall : Z) :
  exact_calculate table fam stats primary secondary tertiary overall =
  AltPosition.calculate_best_alt_ovr table fam stats primary secondary
    tertiary overall.
Proof.
  unfold exact_calculate, calculate_best_alt_ovr,
    AltPosition.calculate_best_alt_ovr, scan, AltPosition.scan, scan_from,
    AltPosition.scan_from.
  rewrite (AltPosition.fold_left_ext_in
             (visit Q inject_Z Qmult Qdiv Qplus exact_sum exact_ltb fam stats
                primary secondary tertiary)
             (AltPosition.visit fam stats primary secondary tertiary)).
  - destruct (fold_left _ table (None, None)) as [[best|] pos]; simpl;
      [|reflexivity].
    unfold exact_leb. by destruct (Qlt_le_dec (inject_Z overall) best).
  - intros st e _. unfold visit, AltPosition.visit.
    fold (exact_alt_ovr fam stats primary secondary tertiary e).
    rewrite exact_alt_ovr_agrees. unfold exact_ltb.
    destruct (decide (Some e.1 = primary)); [reflexivity|].
    destruct st.1 as [best|]; [|reflexivity].
    by destruct (Qlt_le_dec best _).
Qed.

Example exact_example_player_70 :
  exact_calculate AltPosition.example_weightings AltPosition.example_familiarity
    AltPosition.example_stats (Some "CB") (Some "CDM") None 70 =
  AltPosition.mk_result (Some "CDM") 74 4.
Proof. vm_compute. reflexivity. Qed.

Lemma not_better_returns_primary_witness :
  exact_calculate AltPosition.example_weightings AltPosition.example_familiarity
    AltPosition.example_stats (Some "CB") (Some "CDM") None 80 =
  AltPosition.mk_result (Some "CB") 80 0.
Proof.
  apply (not_better_returns_primary Q inject_Z Qmult Qdiv Qplus Qminus
           exact_sum exact_ltb exact_leb Numeric.py_round
           AltPosition.example_weightings AltPosition.example_familiarity
           AltPosition.example_stats (Some "CB") (Some "CDM") None 80).
  right. eexists. split.
  - vm_compute. reflexivity.
  - vm_compute. reflexivity.
Defined.

Lemma selected_is_first_maximum_witness :
  (exact_scan AltPosition.example_weightings AltPosition.example_familiarity
     AltPosition.example_stats (Some "CB") (Some "CDM") None = (None, None) ∧
   Forall (λ e, Some e.1 = Some "CB") AltPosition.example_weightings) ∨
  (∃ l1 e l2,
      AltPosition.example_weightings = l1 ++ e :: l2 ∧
      exact_scan AltPosition.example_weightings AltPosition.example_familiarity
        AltPosition.example_stats (Some "CB") (Some "CDM") None =
        (Some (exact_alt_ovr AltPosition.example_familiarity
                 AltPosition.example_stats (Some "CB") (Some "CDM") None e),
         Some e.1) ∧
      Some e.1 ≠ Some "CB" ∧
      (∀ e', e' ∈ l1 → Some e'.1 ≠ Some "CB" →
         exact_ltb
           (exact_alt_ovr AltPosition.example_familiarity
              AltPosition.example_stats (Some "CB") (Some "CDM") None e')
           (exact_alt_ovr AltPosition.example_familiarity
              AltPosition.example_stats (Some "CB") (Some "CDM") None e)
         = true) ∧
      (∀ e', e' ∈ l2 → Some e'.1 ≠ Some "CB" →
         exact_leb
           (exact_alt_ovr AltPosition.example_familiarity
              AltPosition.example_stats (Some "CB") (Some "CDM") None e')
           (exact_alt_ovr AltPosition.example_familiarity
              AltPosition.example_stats (Some "CB") (Some "CDM") None e)
         = true) ∧
      (∀ overall,
         exact_leb
           (exact_alt_ovr AltPosition.example_familiarity
              AltPosition.example_stats (Some "CB") (Some "CDM") None e)
           (inject_Z overall) = false →
         AltPosition.best_alt_position
           (exact_calculate AltPosition.example_weightings
              AltPosition.example_familiarity AltPosition.example_stats
              (Some "CB") (Some "CDM") None overall) = Some e.1)).
Proof.
  exact (selected_is_first_maximum Q inject_Z Qmult Qdiv Qplus Qminus
           exact_sum exact_ltb exact_leb Numeric.py_round
           AltPosition.example_weightings AltPosition.example_familiarity
           AltPosition.example_stats (Some "CB") (Some "CDM") None
           exact_ordered).
Defined.



Lemma no_improvement_exactly_when_none_better_witness :
  exact_calculate AltPosition.example_weightings AltPosition.example_familiarity
    AltPosition.example_stats (Some "CB") (Some "CDM") None 80 =
    AltPosition.mk_result (Some "CB") 80 0 ↔
  (∀ e, e ∈ AltPosition.example_weightings → Some e.1 ≠ Some "CB" →
        exact_leb
          (exact_alt_ovr AltPosition.example_familiarity
             AltPosition.example_stats (Some "CB") (Some "CDM") None e)
          (inject_Z 80) = true).
Proof.
  exact (no_improvement_exactly_when_none_better Q inject_Z Qmult Qdiv Qplus
           Qminus exact_sum exact_ltb exact_leb Numeric.py_round
           AltPosition.example_weightings AltPosition.example_familiarity
           AltPosition.example_stats (Some "CB") (Some "CDM") None
           exact_ordered 80).
Defined.


(** *** Binary64 arithmetic

    The parameters taken as the IEEE 754 binary64 operations (the
    Standard Library's specification of them), with a [sum] that adds from
    left to right.  Infinities and not-a-number have no rounding here
    (Python raises on them). *)

Definition b64_of_int (z : Z) : SpecFloat.spec_float :=
  SpecFloat.binary_normalize 53 1024 z 0 false.

(** The decimal [n / d] as the nearest float, as a parsed literal is. *)
Definition b64_decimal (n d : Z) : SpecFloat.spec_float :=
  SpecFloat.SFdiv 53 1024 (b64_of_int n) (b64_of_int d).

Definition b64_sum (l : list SpecFloat.spec_float) : SpecFloat.spec_float :=
  fold_left (SpecFloat.SFadd 53 1024) l (b64_of_int 0).

(** The rational a finite float stands for. *)
Definition b64_value (x : SpecFloat.spec_float) : Q :=
  match x with
  | SpecFloat.S754_finite s m e =>
      let q :=
        if decide (0 ≤ e)%Z then inject_Z (Zpos m * 2 ^ e)
        else (Zpos m # Pos.pow 2 (Z.to_pos (- e)))%Q in
      if s then (- q)%Q else q
  | _ => 0%Q
  end.

Definition b64_round (x : SpecFloat.spec_float) : Z :=
  Numeric.py_round (b64_value x).

Definition b64_calculate
    (table : list (string * list (string * SpecFloat.spec_float)))
    (fam : gmap (string * string) SpecFloat.spec_float)
    (stats : gmap string SpecFloat.spec_float)
    (primary secondary tertiary : option string) (overall : Z) :
    AltPosition.result :=
  calculate_best_alt_ovr SpecFloat.spec_float b64_of_int
    (SpecFloat.SFmul 53 1024) (SpecFloat.SFdiv 53 1024)
    (SpecFloat.SFadd 53 1024) (SpecFloat.SFsub 53 1024) b64_sum
    SpecFloat.SFltb SpecFloat.SFleb b64_round table fam stats
    primary secondary tertiary overall.

(** Weights 51.1, 44.3 and 4.6 on stats 84, 60 and 76: exactly 73, and
    73.00000000000001 in binary64. *)
Example rounding_moves_the_branch :
  b64_calculate
    [("ST", [("PAC", b64_decimal 511 10); ("SHO", b64_decimal 443 10);
             ("PAS", b64_decimal 46 10)])]
    ∅
    (list_to_map [("PAC", b64_of_int 84); ("SHO", b64_of_int 60);
                  ("PAS", b64_of_int 76)])
    (Some "CB") None None 73 = AltPosition.mk_result (Some "ST") 73 0 ∧
  exact_calculate
    [("ST", [("PAC", (511 # 10)%Q); ("SHO", (443 # 10)%Q);
             ("PAS", (46 # 10)%Q)])]
    ∅
    (list_to_map [("PAC", 84%Q); ("SHO", 60%Q); ("PAS", 76%Q)])
    (Some "CB") None None 73 = AltPosition.mk_result (Some "CB") 73 0.
Proof. split; vm_compute; reflexivity. Qed.

(** Two positions that rate 61.49 exactly: in binary64 the first, 66.49
    with a familiarity penalty of -5, comes out just below the second. *)
Example rounding_moves_the_selection :
  b64_calculate
    [("CAM", [("PAS", b64_of_int 61); ("DRI", b64_of_int 39)]);
     ("CM", [("PAS", b64_of_int 19); ("DRI", b64_of_int 79)])]
    {[ ("CB", "CAM") := b64_of_int (-5) ]}
    (list_to_map [("PAS", b64_of_int 70); ("DRI", b64_of_int 61)])
    (Some "CB") None None 60 = AltPosition.mk_result (Some "CM") 61 1 ∧
  exact_calculate
    [("CAM", [("PAS", 61%Q); ("DRI", 39%Q)]);
     ("CM", [("PAS", 19%Q); ("DRI", 79%Q)])]
    {[ ("CB", "CAM") := (-5 # 1)%Q ]}
    (list_to_map [("PAS", 70%Q); ("DRI", 61%Q)])
    (Some "CB") None None 60 = AltPosition.mk_result (Some "CAM") 61 1.
Proof. split; vm_compute; reflexivity. Qed.

(** A rating of 68.4 with a familiarity penalty of -5.9: exactly 62.5,
    and 62.50000000000001 in binary64, which rounds the other way. *)
Example rounding_moves_the_result :
  b64_calculate
    [("ST", [("PAC", b64_of_int 40); ("SHO", b64_of_int 60)])]
    {[ ("CB", "ST") := b64_decimal (-59) 10 ]}
    (list_to_map [("PAC", b64_of_int 66); ("SHO", b64_of_int 70)])
    (Some "CB") None None 60 = AltPosition.mk_result (Some "ST") 63 3 ∧
  exact_calculate
    [("ST", [("PAC", 40%Q); ("SHO", 60%Q)])]
    {[ ("CB", "ST") := (-59 # 10)%Q ]}
    (list_to_map [("PAC", 66%Q); ("SHO", 70%Q)])
    (Some "CB") None None 60 = AltPosition.mk_result (Some "ST") 62 2.
Proof. split; vm_compute; reflexivity. Qed.

(** C1 fails on the code: a striker rating of 70.5 (50 x 71 + 50 x 70 over
    100, exact in binary64) against an overall of 69.  [round(70.5)] is 70
    and [round(1.5)] is 2, both ties going to the even neighbour, so the
    function returns overall 70 with delta 2 where 70 - 69 is 1. *)
Lemma tie_delta_exceeds_difference :
  b64_calculate
    [("ST", [("PAC", b64_of_int 50); ("SHO", b64_of_int 50)])]
    ∅
    (list_to_map [("PAC", b64_of_int 71); ("SHO", b64_of_int 70)])
    (Some "CB") None None 69 = AltPosition.mk_result (Some "ST") 70 2 ∧
  exact_calculate AltPosition.tie_weightings ∅ AltPosition.tie_stats
    (Some "CB") None None 69 = AltPosition.mk_result (Some "ST") 70 2 ∧
  (0 < 2)%Z ∧ 2%Z ≠ (70 - 69)%Z.
Proof.
  split; [vm_compute; reflexivity|]. split; [vm_compute; reflexivity|]. lia.
Qed.

End AltEvaluator.

(** ** FloorPriceCache: [get_floor_price] of the marketplace page *)

Module FloorCache.

(** Values as [json.load] and [response.json()] return them.  An object's
    keys are distinct; [JNull] is Python's [None]. *)
#[warnings="-register-all"]
Inductive json :=
| JNull
| JBool (b : bool)
| JNum (q : Q)
| JStr (s : string)
| JList (items : list json)
| JObj (fields : list (string * json)).

(** An entry of [floor_price_cache]: an object with the two fields the
    program writes, each of which may be missing from an object read back
    from the cache file.  The price is whatever the remote record held
    ([JNull] for a recorded miss); the timestamp is a number. *)
Record entry := mk_entry {
  price : option json;
  timestamp : option Q
}.

(** What [requests.get] does: it raises, or it returns a response with a
    status code whose [json()] gives a value or raises (body [None]). *)
Inductive response :=
| ConnectionError
| Response (status_code : Z) (body : option json).

(** The module's globals and the world around them: the cache dict, the
    contents of [floor_cache.json], and the URLs requested so far. *)
Record state := mk_state {
  floor_price_cache : gmap string entry;
  cache_file : gmap string entry;
  requests : list string
}.

Inductive exception := KeyError.

Inductive outcome :=
| Return (value : json)
| Raise (e : exception).

Definition CACHE_EXPIRY_SECONDS : Q := 3600%Q.

(** [bool(v)] *)
Definition truthy (v : json) : bool :=
  match v with
  | JNull => false
  | JBool b => b
  | JNum q => negb (Qeq_bool q 0)
  | JStr s => negb (String.eqb s EmptyString)
  | JList items => match items with [] => false | _ => true end
  | JObj fields => match fields with [] => false | _ => true end
  end.

(** [isinstance(v, list)] *)
Definition is_list (v : json) : bool :=
  match v with JList _ => true | _ => false end.

(** ["price" in v]: key membership in a dict, substring in a str, element
    equality in a list; [None] where Python raises [TypeError]. *)
Definition contains_price (v : json) : option bool :=
  match v with
  | JObj fields => Some (bool_decide ("price" ∈ fields.*1))
  | JStr s => Some (bool_decide (is_Some (String.index 0 "price" s)))
  | JList items =>
      Some (existsb
              (λ x, match x with JStr s => String.eqb s "price" | _ => false end)
              items)
  | JNull | JBool _ | JNum _ => None
  end.

(** [d[key]] on an object's fields. *)
Fixpoint field (key : string) (fields : list (string * json)) : option json :=
  match fields with
  | [] => None
  | (k, v) :: rest => if String.eqb k key then Some v else field key rest
  end.

(** [v["price"]]; [None] where Python raises. *)
Definition subscript_price (v : json) : option json :=
  match v with
  | JObj fields => field "price" fields
  | _ => None
  end.

(** Lines 62-66 inside the [try]: the price the lookup yields, or [None]
    when control leaves the [try] without reaching [return price]. *)
Definition fetched_price (r : response) : option json :=
  match r with
  | ConnectionError => None
  | Response status_code body =>
      if decide (status_code = 200%Z) then
        match body with
        | None => None
        | Some data =>
            if truthy data && is_list data then
              match data with
              | JList (first :: _) =>
                  match contains_price first with
                  | Some true => subscript_price first
                  | _ => None
                  end
              | _ => None
              end
            else None
        end
      else None
  end.

(** The URL of lines 55-59. *)
Definition floor_url (age ovr : Z) (position : string) : string :=
  "https://z519wdyajg.execute-api.us-east-1.amazonaws.com/prod/listings"
  +:+ "?limit=1&type=PLAYER&sorts=listing.price&sortsOrders=ASC&status=AVAILABLE"
  +:+ "&ageMin=" +:+ pretty age +:+ "&ageMax=" +:+ pretty age
  +:+ "&overallMin=" +:+ pretty ovr +:+ "&overallMax=" +:+ pretty ovr
  +:+ "&positions=" +:+ position +:+ "&view=full".

(** [floor_price_cache[key] = {"price": p, "timestamp": t}] *)
Definition cache_write (key : string) (p : json) (t : Q) (st : state) : state :=
  mk_state (<[key := mk_entry (Some p) (Some t)]> (floor_price_cache st))
    (cache_file st) (requests st).

(** [save_floor_cache()]: the file is rewritten with the whole dict. *)
Definition save_floor_cache (st : state) : state :=
  mk_state (floor_price_cache st) (floor_price_cache st) (requests st).

Section Remote.

(** [hashlib.md5(...).hexdigest()], and the remote endpoint: the response
    to a request, given how many requests came before it and its URL. *)
Variable md5_hexdigest : string → string.
Variable requests_get : nat → string → response.

Definition generate_floor_key (age ovr : Z) (position : string) : string :=
  md5_hexdigest (pretty age +:+ "-" +:+ pretty ovr +:+ "-" +:+ position).

(** Lines 50-52: is there an entry under [key] younger than the expiry?
    A missing timestamp counts as 0. *)
Definition fresh_entry (key : string) (now : Q) (st : state) : option entry :=
  match floor_price_cache st !! key with
  | Some cached =>
      if Qlt_le_dec (now - default 0%Q (timestamp cached)) CACHE_EXPIRY_SECONDS
      then Some cached
      else None
  | None => None
  end.

(** Lines 55-75: one remote lookup, then the write and the save. *)
Definition lookup_remote (age ovr : Z) (position : string) (key : string)
    (now : Q) (st : state) : outcome * state :=
  let url := floor_url age ovr position in
  let r := requests_get (length (requests st)) url in
  let st := mk_state (floor_price_cache st) (cache_file st)
              (requests st ++ [url]) in
  match fetched_price r with
  | Some p => (Return p, save_floor_cache (cache_write key p now st))
  | None => (Return JNull, save_floor_cache (cache_write key JNull now st))
  end.

(** [now] is the value [time.time()] returns during the call. *)
Definition get_floor_price (age ovr : option Z) (position : option string)
    (now : Q) (st : state) : outcome * state :=
  match age, ovr, position with
  | Some age, Some ovr, Some position =>
      let key := generate_floor_key age ovr position in
      match fresh_entry key now st with
      | Some cached =>
          match price cached with
          | Some p => (Return p, st)
          | None => (Raise KeyError, st)
          end
      | None => lookup_remote age ovr position key now st
      end
  | _, _, _ => (Return JNull, st)
  end.

(** The remote lookup failed, in the words of the specification: an
    exception, a status other than success, or a payload that is not a
    non-empty list whose first record carries a price field. *)
Definition carries_price (data : json) : Prop :=
  ∃ fields rest, data = JList (JObj fields :: rest) ∧ "price" ∈ fields.*1.

Definition lookup_failed (r : response) : Prop :=
  r = ConnectionError ∨
  (∃ status_code body, r = Response status_code body ∧ status_code ≠ 200%Z) ∨
  (∃ status_code, r = Response status_code None) ∨
  (∃ status_code data, r = Response status_code (Some data) ∧
                       ¬ carries_price data).

Lemma field_None (key : string) (fields : list (string * json)) :
  field key fields = None → key ∉ fields.*1.
Proof.
  induction fields as [|[k v] rest IH]; simpl.
  - intros _. apply not_elem_of_nil.
  - destruct (String.eqb_spec k key) as [->|Hne]; [discriminate|].
    intros Hrest. apply not_elem_of_cons. split; [congruence|by apply IH].
Qed.

(** The [try] block yields no price on every failed lookup. *)
Lemma fetched_price_failed (r : response) :
  lookup_failed r → fetched_price r = None.
Proof.
  intros [->|[(code & body & -> & Hcode)|[(code & ->)|(code & data & -> & Hno)]]];
    simpl; try reflexivity.
  - by rewrite decide_False.
  - by destruct (decide (code = 200%Z)).
  - destruct (decide (code = 200%Z)); [|reflexivity].
    destruct (truthy data && is_list data); [|reflexivity].
    destruct data as [| | | |[|first rest]|]; try reflexivity.
    destruct first as [| | | | |fields]; simpl; try reflexivity.
    + by destruct (bool_decide _).
    + by destruct (existsb _ _).
    + case_bool_decide as Hin; [|reflexivity].
      exfalso. apply Hno. by exists fields, rest.
Qed.

(** And it yields one on every other lookup: the failure cases above are
    exactly the ways of leaving the [try] without a price. *)
Lemma fetched_price_succeeded (r : response) :
  fetched_price r = None → lookup_failed r.
Proof.
  destruct r as [|code [data|]]; [by left| |right; right; left; by exists code].
  destruct (decide (code = 200%Z)) as [->|Hne];
    [|intros _; right; left; by exists code, (Some data)].
  intros Hnone. right. right. right. exists 200%Z, data.
  split; [reflexivity|]. intros (fields & rest & -> & Hin).
  simpl in Hnone. rewrite bool_decide_eq_true_2 in Hnone by exact Hin.
  by apply field_None in Hnone.
Qed.

Lemma lookup_remote_requests (age ovr : Z) (position key : string) (now : Q)
    (st : state) :
  requests (lookup_remote age ovr position key now st).2 =
  requests st ++ [floor_url age ovr position].
Proof. unfold lookup_remote. by destruct (fetched_price _). Qed.

Lemma lookup_remote_returns (age ovr : Z) (position key : string) (now : Q)
    (st : state) :
  ∃ v st', lookup_remote age ovr position key now st = (Return v, st').
Proof. unfold lookup_remote. destruct (fetched_price _); eauto. Qed.

Lemma fresh_entry_Some (key : string) (now : Q) (st : state) (cached : entry) :
  floor_price_cache st !! key = Some cached →
  (now - default 0%Q (timestamp cached) < CACHE_EXPIRY_SECONDS)%Q →
  fresh_entry key now st = Some cached.
Proof.
  intros Hk Hlt. unfold fresh_entry. rewrite Hk.
  destruct (Qlt_le_dec _ _) as [_|Hle]; [reflexivity|].
  exfalso. eapply Qlt_not_le; eassumption.
Qed.

Lemma fresh_entry_None (key : string) (now : Q) (st : state) :
  (∀ cached, floor_price_cache st !! key = Some cached →
     (CACHE_EXPIRY_SECONDS <= now - default 0%Q (timestamp cached))%Q) →
  fresh_entry key now st = None.
Proof.
  intros Hstale. unfold fresh_entry.
  destruct (floor_price_cache st !! key) as [cached|]; [|reflexivity].
  destruct (Qlt_le_dec _ _) as [Hlt|_]; [|reflexivity].
  exfalso. eapply Qlt_not_le; [exact Hlt|]. by apply Hstale.
Qed.

Lemma fresh_entry_lookup (key : string) (now : Q) (st : state) (cached : entry) :
  fresh_entry key now st = Some cached →
  floor_price_cache st !! key = Some cached.
Proof.
  unfold fresh_entry. destruct (floor_price_cache st !! key) as [c|]; [|done].
  by destruct (Qlt_le_dec _ _); intros [= ->].
Qed.

(** C7.  After the entry (price, timestamp) has been written under the
    triple's key and saved, a call made less than 3600 seconds after the
    stored timestamp returns the stored price and leaves the state as it
    was, the list of remote requests included; a call made 3600 seconds
    or more after it adds exactly one request to that list. *)
Theorem cache_round_trip (age ovr : Z) (position : string) (p : json)
    (t now : Q) (st : state) :
  ((now - t < CACHE_EXPIRY_SECONDS)%Q →
   get_floor_price (Some age) (Some ovr) (Some position) now
     (save_floor_cache
        (cache_write (generate_floor_key age ovr position) p t st)) =
     (Return p,
      save_floor_cache
        (cache_write (generate_floor_key age ovr position) p t st))) ∧
  ((CACHE_EXPIRY_SECONDS <= now - t)%Q →
   requests
     (get_floor_price (Some age) (Some ovr) (Some position) now
        (save_floor_cache
           (cache_write (generate_floor_key age ovr position) p t st))).2 =
   requests st ++ [floor_url age ovr position]).
Proof.
  set (key := generate_floor_key age ovr position).
  set (st1 := save_floor_cache (cache_write key p t st)).
  assert (floor_price_cache st1 !! key = Some (mk_entry (Some p) (Some t)))
    as Hk by apply lookup_insert_eq.
  split; intros Hage; unfold get_floor_price; fold key.
  - by rewrite (fresh_entry_Some key now st1 _ Hk Hage).
  - rewrite fresh_entry_None.
    + by rewrite lookup_remote_requests.
    + intros cached Hc. rewrite Hk in Hc. by injection Hc as <-.
Qed.

(** C8.  With all three arguments present and no entry under the triple's
    key younger than 3600 seconds, a failed remote lookup (an exception, a
    status other than 200, a body that is not JSON, or a payload that is
    not a non-empty list whose first record has a price field) makes the
    call return [None], after writing the entry (None, now) under the key
    and saving the cache. *)
Theorem failed_lookup_caches_absent (age ovr : Z) (position : string)
    (now : Q) (st : state) :
  (∀ cached,
     floor_price_cache st !! generate_floor_key age ovr position = Some cached →
     (CACHE_EXPIRY_SECONDS <= now - default 0%Q (timestamp cached))%Q) →
  lookup_failed
    (requests_get (length (requests st)) (floor_url age ovr position)) →
  get_floor_price (Some age) (Some ovr) (Some position) now st =
    (Return JNull,
     mk_state
       (<[generate_floor_key age ovr position := mk_entry (Some JNull) (Some now)]>
          (floor_price_cache st))
       (<[generate_floor_key age ovr position := mk_entry (Some JNull) (Some now)]>
          (floor_price_cache st))
       (requests st ++ [floor_url age ovr position])).
Proof.
  intros Hstale Hfail. unfold get_floor_price.
  rewrite fresh_entry_None by exact Hstale.
  unfold lookup_remote. by rewrite (fetched_price_failed _ Hfail).
Qed.

(** C10.  If the entry under the triple's key is younger than 3600
    seconds and has no price field, the call raises [KeyError] and changes
    nothing.  If every entry of the cache has a price field, no call
    raises: each returns a value. *)
Theorem missing_price_raises_key_error (now : Q) (st : state) :
  (∀ (age ovr : Z) (position : string) (cached : entry),
     floor_price_cache st !! generate_floor_key age ovr position = Some cached →
     (now - default 0%Q (timestamp cached) < CACHE_EXPIRY_SECONDS)%Q →
     price cached = None →
     get_floor_price (Some age) (Some ovr) (Some position) now st =
       (Raise KeyError, st)) ∧
  ((∀ key cached, floor_price_cache st !! key = Some cached →
                  is_Some (price cached)) →
   ∀ (age ovr : option Z) (position : option string),
     ∃ v st', get_floor_price age ovr position now st = (Return v, st')).
Proof.
  split.
  - intros age ovr position cached Hk Hage Hprice. unfold get_floor_price.
    rewrite (fresh_entry_Some _ now st cached Hk Hage). by rewrite Hprice.
  - intros Hall [age|] [ovr|] [position|]; simpl; eauto.
    destruct (fresh_entry _ now st) as [cached|] eqn:Hfresh.
    + apply fresh_entry_lookup in Hfresh.
      destruct (Hall _ _ Hfresh) as [p ->]. eauto.
    + apply lookup_remote_returns.
Qed.

(** *** Further properties of [get_floor_price] *)

(** Every entry of the cache has a price field. *)
Definition all_priced (st : state) : Prop :=
  ∀ key cached, floor_price_cache st !! key = Some cached →
                is_Some (price cached).

(** With one of the three arguments absent the call returns [None] at
    line 45: it reads no clock-dependent entry, requests nothing and
    writes nothing. *)
Theorem absent_argument_short_circuit (age ovr : option Z)
    (position : option string) (now : Q) (st : state) :
  age = None ∨ ovr = None ∨ position = None →
  get_floor_price age ovr position now st = (Return JNull, st).
Proof.
  intros [-> | [-> | ->]]; [reflexivity| |].
  - by destruct age.
  - by destruct age, ovr.
Qed.

(** A call leaves the state as it is (a fresh entry, or an absent
    argument), or else it makes exactly one request, writes an entry with
    both fields under the triple's key, and saves: the file then equals
    the cache. *)
Lemma get_floor_price_cases (age ovr : option Z) (position : option string)
    (now : Q) (st : state) :
  (get_floor_price age ovr position now st).2 = st ∨
  (∃ a o pos p,
     age = Some a ∧ ovr = Some o ∧ position = Some pos ∧
     fresh_entry (generate_floor_key a o pos) now st = None ∧
     get_floor_price age ovr position now st =
       (Return p,
        mk_state
          (<[generate_floor_key a o pos := mk_entry (Some p) (Some now)]>
             (floor_price_cache st))
          (<[generate_floor_key a o pos := mk_entry (Some p) (Some now)]>
             (floor_price_cache st))
          (requests st ++ [floor_url a o pos]))).
Proof.
  destruct age as [a|], ovr as [o|], position as [pos|]; try by left.
  unfold get_floor_price.
  destruct (fresh_entry _ now st) as [cached|] eqn:Hfresh.
  - left. by destruct (price cached).
  - right. unfold lookup_remote.
    destruct (fetched_price _) as [p|].
    + by exists a, o, pos, p.
    + by exists a, o, pos, JNull.
Qed.

(** The cache is saved after every write: a call that changes anything
    makes exactly one request and leaves the file equal to the cache, so a
    file that equals the cache before a call equals it afterwards. *)
Theorem cache_saved_after_every_write (age ovr : option Z)
    (position : option string) (now : Q) (st : state) :
  ((get_floor_price age ovr position now st).2 = st ∨
   (length (requests (get_floor_price age ovr position now st).2) =
      S (length (requests st)) ∧
    cache_file (get_floor_price age ovr position now st).2 =
      floor_price_cache (get_floor_price age ovr position now st).2)) ∧
  (cache_file st = floor_price_cache st →
   cache_file (get_floor_price age ovr position now st).2 =
     floor_price_cache (get_floor_price age ovr position now st).2).
Proof.
  destruct (get_floor_price_cases age ovr position now st)
    as [Hsame|(a & o & pos & p & _ & _ & _ & _ & ->)].
  - rewrite Hsame. split; [by left|done].
  - simpl. split; [right|done]. split; [|reflexivity].
    rewrite length_app. simpl. lia.
Qed.

(** A call touches no key but the triple's own, and no entry is ever
    removed from the cache. *)
Theorem lookup_touches_only_its_key (age ovr : Z) (position : string)
    (now : Q) (st : state) :
  (∀ key, key ≠ generate_floor_key age ovr position →
     floor_price_cache
       (get_floor_price (Some age) (Some ovr) (Some position) now st).2 !! key =
     floor_price_cache st !! key) ∧
  (∀ key, is_Some (floor_price_cache st !! key) →
     is_Some
       (floor_price_cache
          (get_floor_price (Some age) (Some ovr) (Some position) now st).2
          !! key)).
Proof.
  destruct (get_floor_price_cases (Some age) (Some ovr) (Some position) now st)
    as [->|(a & o & pos & p & [= <-] & [= <-] & [= <-] & _ & ->)];
    [done|simpl].
  split.
  - intros key Hne. by rewrite lookup_insert_ne.
  - intros key Hsome.
    destruct (decide (generate_floor_key age ovr position = key)) as [<-|Hne].
    + by rewrite lookup_insert_eq.
    + by rewrite lookup_insert_ne.
Qed.

Lemma priced_cache_returns (age ovr : option Z) (position : option string)
    (now : Q) (st : state) :
  all_priced st →
  ∃ v st', get_floor_price age ovr position now st = (Return v, st').
Proof.
  intros Hall. destruct age as [a|], ovr as [o|], position as [pos|];
    simpl; eauto.
  destruct (fresh_entry _ now st) as [cached|] eqn:Hfresh.
  - apply fresh_entry_lookup in Hfresh.
    destruct (Hall _ _ Hfresh) as [p ->]. eauto.
  - apply lookup_remote_returns.
Qed.

(** Entries the program writes always carry a price: if every entry of
    the cache has a price field, a call returns a value (it cannot raise
    [KeyError]) and every entry has a price field afterwards too. *)
Theorem priced_cache_stays_priced (age ovr : option Z)
    (position : option string) (now : Q) (st : state) :
  all_priced st →
  (∃ v, (get_floor_price age ovr position now st).1 = Return v) ∧
  all_priced (get_floor_price age ovr position now st).2.
Proof.
  intros Hall.
  destruct (get_floor_price_cases age ovr position now st)
    as [Hsame|(a & o & pos & p & _ & _ & _ & _ & ->)].
  - rewrite Hsame. split; [|exact Hall].
    destruct (priced_cache_returns age ovr position now st Hall)
      as (v & st' & ->).
    by exists v.
  - simpl. split; [by exists p|].
    intros key cached. simpl.
    destruct (decide (generate_floor_key a o pos = key)) as [<-|Hne].
    + rewrite lookup_insert_eq. intros [= <-]. by exists p.
    + rewrite lookup_insert_ne by exact Hne. apply Hall.
Qed.

(** Results of remote lookups are cached, misses included: after a call
    that found no entry younger than the expiry, a second call for the same
    triple less than 3600 seconds later returns the same value and changes
    nothing, so it makes no request. *)
Theorem second_lookup_is_cached (age ovr : Z) (position : string)
    (now now' : Q) (st : state) :
  (∀ cached,
     floor_price_cache st !! generate_floor_key age ovr position = Some cached →
     (CACHE_EXPIRY_SECONDS <= now - default 0%Q (timestamp cached))%Q) →
  (now' - now < CACHE_EXPIRY_SECONDS)%Q →
  get_floor_price (Some age) (Some ovr) (Some position) now'
    (get_floor_price (Some age) (Some ovr) (Some position) now st).2 =
  get_floor_price (Some age) (Some ovr) (Some position) now st.
Proof.
  intros Hstale Hsoon.
  destruct (get_floor_price_cases (Some age) (Some ovr) (Some position) now st)
    as [Hsame|(a & o & pos & p & [= <-] & [= <-] & [= <-] & _ & Hres)].
  - exfalso. revert Hsame. unfold get_floor_price.
    rewrite fresh_entry_None by exact Hstale.
    intros Hsame. pose proof (lookup_remote_requests age ovr position
      (generate_floor_key age ovr position) now st) as Hreq.
    rewrite Hsame in Hreq. apply (f_equal length) in Hreq.
    rewrite length_app in Hreq. simpl in Hreq. lia.
  - rewrite Hres. cbn [snd].
    set (key := generate_floor_key age ovr position).
    set (st1 := mk_state _ _ _).
    assert (fresh_entry key now' st1 = Some (mk_entry (Some p) (Some now)))
      as Hfresh.
    { apply fresh_entry_Some; [apply lookup_insert_eq|exact Hsoon]. }
    unfold get_floor_price. fold key. by rewrite Hfresh.
Qed.

(** A successful lookup: with no entry younger than the expiry, a
    response with status 200 whose payload is a list starting with a record
    that has a price field makes the call return that price, after writing
    the entry (price, now) under the key and saving the cache. *)
Theorem successful_lookup_caches_price (age ovr : Z) (position : string)
    (now : Q) (st : state) (fields : list (string * json)) (rest : list json)
    (p : json) :
  (∀ cached,
     floor_price_cache st !! generate_floor_key age ovr position = Some cached →
     (CACHE_EXPIRY_SECONDS <= now - default 0%Q (timestamp cached))%Q) →
  requests_get (length (requests st)) (floor_url age ovr position) =
    Response 200 (Some (JList (JObj fields :: rest))) →
  field "price" fields = Some p →
  get_floor_price (Some age) (Some ovr) (Some position) now st =
    (Return p,
     mk_state
       (<[generate_floor_key age ovr position := mk_entry (Some p) (Some now)]>
          (floor_price_cache st))
       (<[generate_floor_key age ovr position := mk_entry (Some p) (Some now)]>
          (floor_price_cache st))
       (requests st ++ [floor_url age ovr position])).
Proof.
  intros Hstale Hresp Hfield. unfold get_floor_price.
  rewrite fresh_entry_None by exact Hstale.
  unfold lookup_remote. rewrite Hresp. simpl.
  rewrite bool_decide_eq_true_2.
  - by rewrite Hfield.
  - clear Hresp. induction fields as [|[k v] fs IH]; [discriminate|].
    simpl in *. destruct (String.eqb_spec k "price") as [->|Hne].
    + apply elem_of_cons. by left.
    + apply elem_of_cons. right. by apply IH.
Qed.

(** Helpers for callers of [get_floor_price]. *)



Lemma all_priced_step (age ovr : option Z) (position : option string)
    (now : Q) (st : state) :
  all_priced st →
  ∃ v st', get_floor_price age ovr position now st = (Return v, st') ∧
           all_priced st'.
Proof.
  intros Hall.
  destruct (get_floor_price_cases age ovr position now st)
    as [Hsame|(a & o & pos & p & _ & _ & _ & _ & ->)].
  - destruct (priced_cache_returns age ovr position now st Hall)
      as (v & st' & Hres).
    rewrite Hres in Hsame. simpl in Hsame. subst st'. by exists v, st.
  - eexists _, _. split; [reflexivity|].
    intros key cached. simpl.
    destruct (decide (generate_floor_key a o pos = key)) as [<-|Hne].
    + rewrite lookup_insert_eq. intros [= <-]. by exists p.
    + rewrite lookup_insert_ne by exact Hne. apply Hall.
Qed.

End Remote.

(** *** The text that is hashed into a key *)

Import Stdlib.Strings.Ascii.

(** A string without the separator of the key text. *)
Fixpoint dashless (s : string) : Prop :=
  match s with
  | EmptyString => True
  | String c s' => c ≠ "-"%char ∧ dashless s'
  end.

Lemma pretty_N_go_dashless (x : N) :
  ∀ s, dashless s → dashless (pretty_N_go x s).
Proof.
  induction (N.lt_wf_0 x) as [x _ IH]; intros s Hs.
  assert (x = 0 ∨ 0 < x)%N as [->|Hpos] by lia.
  - by rewrite pretty_N_go_0.
  - rewrite pretty_N_go_step by done. apply IH; [by apply N.div_lt|].
    split; [|done]. unfold pretty_N_char. by repeat case_match.
Qed.

Lemma pretty_nonneg_dashless (z : Z) : (0 ≤ z)%Z → dashless (pretty z).
Proof.
  destruct z as [|x|x]; [by intros _; simpl| |lia]. intros _.
  unfold pretty, pretty_Z, pretty, pretty_positive, pretty, pretty_N.
  case_decide; [done|]. by apply pretty_N_go_dashless.
Qed.

Lemma split_at_dash (s1 : string) :
  ∀ s2 t1 t2, dashless s1 → dashless s2 →
    s1 +:+ "-" +:+ t1 = s2 +:+ "-" +:+ t2 → s1 = s2 ∧ t1 = t2.
Proof.
  induction s1 as [|c s1 IH]; intros [|c2 s2] t1 t2 H1 H2 E; simpl in *.
  - by injection E.
  - injection E as Ec _. destruct H2 as [H2 _]. by destruct H2.
  - injection E as Ec _. destruct H1 as [H1 _]. by destruct H1.
  - injection E as -> E. destruct H1 as [_ H1], H2 as [_ H2].
    by destruct (IH s2 t1 t2 H1 H2 E) as [-> ->].
Qed.

(** The text [f"{age}-{ovr}-{position}"] that is hashed determines the
    triple when age and overall are not negative: two triples share a
    cache key only if the digest collides.  (Stated with the identity in
    place of the digest.) *)
Theorem key_text_determines_triple (age age' ovr ovr' : Z)
    (position position' : string) :
  (0 ≤ age)%Z → (0 ≤ age')%Z → (0 ≤ ovr)%Z → (0 ≤ ovr')%Z →
  generate_floor_key (λ text, text) age ovr position =
  generate_floor_key (λ text, text) age' ovr' position' →
  age = age' ∧ ovr = ovr' ∧ position = position'.
Proof.
  intros Ha Ha' Ho Ho' E. unfold generate_floor_key in E.
  apply split_at_dash in E as [Eage E]; [|by apply pretty_nonneg_dashless..].
  apply split_at_dash in E as [Eovr E]; [|by apply pretty_nonneg_dashless..].
  split; [by apply (inj pretty)|]. split; [by apply (inj pretty)|done].
Qed.

(** *** Concrete runs

    A stand-in digest (the identity) and two remote endpoints: one that is
    down, and one that lists a single player at price 4. *)

Definition plain_key (s : string) : string := s.

Definition remote_down (n : nat) (url : string) : response :=
  Response 503 None.

Definition remote_listing (n : nat) (url : string) : response :=
  Response 200
    (Some (JList [JObj [("listingResourceId", JNum 9%Q); ("price", JNum 4%Q)]])).

Definition empty_state : state := mk_state ∅ ∅ [].

(** A cache file edited by hand: an entry with a timestamp and no price. *)
Definition priceless_state : state :=
  mk_state {[ "24-66-ST" := mk_entry None (Some 1000%Q) ]} ∅ [].

Example miss_then_hit :
  get_floor_price plain_key remote_listing (Some 24%Z) (Some 66%Z) (Some "ST")
    1000%Q empty_state =
  (Return (JNum 4%Q),
   mk_state {[ "24-66-ST" := mk_entry (Some (JNum 4%Q)) (Some 1000%Q) ]}
     {[ "24-66-ST" := mk_entry (Some (JNum 4%Q)) (Some 1000%Q) ]}
     [floor_url 24 66 "ST"]).
Proof. vm_compute. reflexivity. Qed.

Example absent_argument :
  get_floor_price plain_key remote_listing None (Some 66%Z) (Some "ST")
    1000%Q empty_state = (Return JNull, empty_state).
Proof. reflexivity. Qed.

Lemma cache_round_trip_witness :
  get_floor_price plain_key remote_down (Some 24%Z) (Some 66%Z) (Some "ST")
    1900%Q
    (save_floor_cache
       (cache_write (generate_floor_key plain_key 24 66 "ST") (JNum 4%Q)
          1000%Q empty_state)) =
  (Return (JNum 4%Q),
   save_floor_cache
     (cache_write (generate_floor_key plain_key 24 66 "ST") (JNum 4%Q)
        1000%Q empty_state)).
Proof.
  apply (proj1 (cache_round_trip plain_key remote_down 24 66 "ST" (JNum 4%Q)
                  1000%Q 1900%Q empty_state)).
  vm_compute. reflexivity.
Defined.

Lemma failed_lookup_caches_absent_witness :
  get_floor_price plain_key remote_down (Some 24%Z) (Some 66%Z) (Some "ST")
    1000%Q empty_state =
  (Return JNull,
   mk_state
     (<[generate_floor_key plain_key 24 66 "ST" :=
          mk_entry (Some JNull) (Some 1000%Q)]> (floor_price_cache empty_state))
     (<[generate_floor_key plain_key 24 66 "ST" :=
          mk_entry (Some JNull) (Some 1000%Q)]> (floor_price_cache empty_state))
     (requests empty_state ++ [floor_url 24 66 "ST"])).
Proof.
  apply (failed_lookup_caches_absent plain_key remote_down 24 66 "ST" 1000%Q
           empty_state).
  - intros cached Hc. simpl in Hc. by rewrite lookup_empty in Hc.
  - right. left. exists 503%Z, None. split; [reflexivity|discriminate].
Defined.

Lemma missing_price_raises_key_error_witness :
  get_floor_price plain_key remote_down (Some 24%Z) (Some 66%Z) (Some "ST")
    1900%Q priceless_state = (Raise KeyError, priceless_state).
Proof.
  apply (proj1 (missing_price_raises_key_error plain_key remote_down 1900%Q
                  priceless_state) 24%Z 66%Z "ST" (mk_entry None (Some 1000%Q))).
  - vm_compute. reflexivity.
  - vm_compute. reflexivity.
  - reflexivity.
Defined.

(** A cache holding one priced entry for the example triple. *)
Definition priced_state : state :=
  mk_state {[ "24-66-ST" := mk_entry (Some (JNum 4%Q)) (Some 1000%Q) ]} ∅ [].

Lemma priced_state_all_priced : all_priced priced_state.
Proof.
  intros key cached Hk. simpl in Hk.
  apply lookup_singleton_Some in Hk as [_ <-]. by eexists.
Defined.

Lemma absent_argument_short_circuit_witness :
  get_floor_price plain_key remote_listing None (Some 66%Z) (Some "ST")
    1000%Q empty_state = (Return JNull, empty_state).
Proof.
  apply (absent_argument_short_circuit plain_key remote_listing None
           (Some 66%Z) (Some "ST") 1000%Q empty_state).
  by left.
Defined.

Lemma priced_cache_stays_priced_witness :
  (∃ v, (get_floor_price plain_key remote_down (Some 24%Z) (Some 66%Z)
           (Some "ST") 9000%Q priced_state).1 = Return v) ∧
  all_priced
    (get_floor_price plain_key remote_down (Some 24%Z) (Some 66%Z)
       (Some "ST") 9000%Q priced_state).2.
Proof.
  exact (priced_cache_stays_priced plain_key remote_down (Some 24%Z)
           (Some 66%Z) (Some "ST") 9000%Q priced_state
           priced_state_all_priced).
Defined.

Lemma second_lookup_is_cached_witness :
  get_floor_price plain_key remote_listing (Some 24%Z) (Some 66%Z) (Some "ST")
    2000%Q
    (get_floor_price plain_key remote_listing (Some 24%Z) (Some 66%Z)
       (Some "ST") 1000%Q empty_state).2 =
  get_floor_price plain_key remote_listing (Some 24%Z) (Some 66%Z) (Some "ST")
    1000%Q empty_state.
Proof.
  apply (second_lookup_is_cached plain_key remote_listing 24 66 "ST"
           1000%Q 2000%Q empty_state).
  - intros cached Hc. simpl in Hc. by rewrite lookup_empty in Hc.
  - vm_compute. reflexivity.
Defined.

Lemma successful_lookup_caches_price_witness :
  get_floor_price plain_key remote_listing (Some 24%Z) (Some 66%Z) (Some "ST")
    1000%Q empty_state =
  (Return (JNum 4%Q),
   mk_state
     (<[generate_floor_key plain_key 24 66 "ST" :=
          mk_entry (Some (JNum 4%Q)) (Some 1000%Q)]>
        (floor_price_cache empty_state))
     (<[generate_floor_key plain_key 24 66 "ST" :=
          mk_entry (Some (JNum 4%Q)) (Some 1000%Q)]>
        (floor_price_cache empty_state))
     (requests empty_state ++ [floor_url 24 66 "ST"])).
Proof.
  apply (successful_lookup_caches_price plain_key remote_listing 24 66 "ST"
           1000%Q empty_state
           [("listingResourceId", JNum 9%Q); ("price", JNum 4%Q)] []
           (JNum 4%Q)).
  - intros cached Hc. simpl in Hc. by rewrite lookup_empty in Hc.
  - reflexivity.
  - reflexivity.
Defined.

Lemma key_text_determines_triple_witness :
  24%Z = 24%Z ∧ 66%Z = 66%Z ∧ "ST" = "ST".
Proof.
  apply (key_text_determines_triple 24 24 66 66 "ST" "ST"); try lia.
  reflexivity.
Defined.

End FloorCache.

(** ** ListingPager: the initial preload of both pages *)

Module Pager.

Section Preload.

(** A fetched record (a listing or a player) and the identifier the loop
    reads from the last one of a batch ([listingResourceId], [id]). *)
Variable record : Type.
Variable Id : Type.
Variable id_of : record → Id.

(** What [requests.get] does for a page: it raises, or it returns a
    status code and the list [response.json()] gives. *)
Inductive response :=
| ConnectionError
| Response (status_code : Z) (body : list record).

(** The remote endpoint: the response to a page request, given how many
    requests came before it and the [before_id] of the request.  The rest
    of the URL is built from the sidebar filters, which do not change
    during a run. *)
Variable server : nat → option Id → response.

(** [st.session_state]: the accumulated records and the cursor. *)
Record session := mk_session {
  listings : list record;
  last_id : option Id
}.

(** The locals of the loop, the requests made so far with what each
    returned, and whether the script was stopped by an exception. *)
Record run := mk_run {
  collected : list record;
  cursor : option Id;
  fetches : list (option Id * response);
  raised : bool
}.

(** [load_listings] and [fetch_scouting_list]: [None] when [requests.get]
    raises, [[]] on a status other than 200, the body otherwise. *)
Definition load_listings (r : response) : option (list record) :=
  match r with
  | ConnectionError => None
  | Response status_code body =>
      if decide (status_code ≠ 200%Z) then Some [] else Some body
  end.

(** [for _ in range(n)]: fetch, [break] on an empty batch, otherwise
    extend the collection and move the cursor to the last record. *)
Fixpoint preload_loop (n : nat) (before_id : option Id) (acc : list record)
    (log : list (option Id * response)) : run :=
  match n with
  | O => mk_run acc before_id log false
  | S n' =>
      let r := server (length log) before_id in
      let log := log ++ [(before_id, r)] in
      match load_listings r with
      | None => mk_run acc before_id log true
      | Some new_batch =>
          match new_batch with
          | [] => mk_run acc before_id log false
          | first :: _ =>
              preload_loop n' (Some (id_of (List.last new_batch first)))
                (acc ++ new_batch) log
          end
      end
  end.

(** Marketplace page, lines 184-192: six fetches from a [None] cursor;
    the session's cursor is assigned after the loop. *)
Definition market_preload (s : session) (log : list (option Id * response)) :
    session * list (option Id * response) :=
  match listings s with
  | [] =>
      let out := preload_loop 6 None (listings s) log in
      (mk_session (collected out)
         (if raised out then last_id s else cursor out),
       fetches out)
  | _ :: _ => (s, log)
  end.

(** Scouting page, lines 131-137: three fetches from the session's
    cursor, which is assigned inside the loop. *)
Definition scouting_preload (s : session) (log : list (option Id * response)) :
    session * list (option Id * response) :=
  match listings s with
  | [] =>
      let out := preload_loop 3 (last_id s) (listings s) log in
      (mk_session (collected out) (cursor out), fetches out)
  | _ :: _ => (s, log)
  end.

(** A response that ends the preload: the request raised, the status was
    not 200, or the page was empty. *)
Definition stops (r : response) : Prop :=
  r = ConnectionError ∨
  ∃ status_code body,
    r = Response status_code body ∧ (status_code ≠ 200%Z ∨ body = []).




(** *** The cursor, and the "load more" buttons *)

(** Line 240 of the marketplace page, run on every pass in which the table
    is not empty: the cursor becomes the id of the last record. *)
Definition market_sync (s : session) : session :=
  match last (listings s) with
  | Some r => mk_session (listings s) (Some (id_of r))
  | None => s
  end.

(** A pass of the marketplace script in which "Load More Listings" is
    pressed (lines 240 and 259-265).  The button exists only while the
    table is not empty; the session's cursor is not assigned here. *)
Definition market_load_more (s : session) (log : list (option Id * response)) :
    session * list (option Id * response) :=
  match listings s with
  | [] => (s, log)
  | _ :: _ =>
      let s := market_sync s in
      let r := server (length log) (last_id s) in
      let log := log ++ [(last_id s, r)] in
      match load_listings r with
      | None => (s, log)
      | Some new_batch =>
          match new_batch with
          | [] => (s, log)
          | _ :: _ => (mk_session (listings s ++ new_batch) (last_id s), log)
          end
      end
  end.

(** A pass of the scouting script in which "Load More Results" is pressed
    (lines 234-241): the cursor moves to the last record of the batch. *)
Definition scouting_load_more (s : session)
    (log : list (option Id * response)) :
    session * list (option Id * response) :=
  match listings s with
  | [] => (s, log)
  | _ :: _ =>
      let r := server (length log) (last_id s) in
      let log := log ++ [(last_id s, r)] in
      match load_listings r with
      | None => (s, log)
      | Some new_batch =>
          match new_batch with
          | [] => (s, log)
          | first :: _ =>
              (mk_session (listings s ++ new_batch)
                 (Some (id_of (List.last new_batch first))), log)
          end
      end
  end.

(** "Refresh Results" in both pages. *)
Definition refresh (s : session) : session := mk_session [] None.

(** The cursor a request made after [page] carries. *)
Definition cursor_after (page : list record) : option Id :=
  id_of <$> last page.

(** The session's cursor is the id of its last record ([None] when it has
    no record). *)
Definition cursor_tracks (s : session) : Prop :=
  last_id s = cursor_after (listings s).

Lemma last_indep (l : list record) :
  ∀ x d d', List.last (x :: l) d = List.last (x :: l) d'.
Proof.
  induction l as [|y l IH]; intros x d d'; [reflexivity|].
  change (List.last (y :: l) d = List.last (y :: l) d'). apply IH.
Qed.

Lemma last_default (first : record) (rest : list record) :
  last (first :: rest) = Some (List.last (first :: rest) first).
Proof.
  revert first. induction rest as [|x rest IH]; intros first; [reflexivity|].
  rewrite last_cons_cons, IH. f_equal.
  change (List.last (x :: rest) x = List.last (x :: rest) first).
  apply last_indep.
Qed.

Lemma cursor_after_app (acc : list record) (first : record)
    (rest : list record) :
  cursor_after (acc ++ first :: rest) =
  Some (id_of (List.last (first :: rest) first)).
Proof.
  unfold cursor_after. by rewrite last_app_cons, last_default.
Qed.

(** The whole trace of a preload: request [i] carries the cursor left by
    page [i - 1], and the cursor at the end is the id of the last record
    collected. *)
Lemma preload_loop_trace (n : nat) :
  ∀ before_id acc log,
  ∃ (pages : list (list record)) (tail : list response),
    fetches (preload_loop n before_id acc log) =
      log ++ zip (before_id :: (cursor_after <$> pages))
               ((Response 200 <$> pages) ++ tail) ∧
    Forall (λ page, page ≠ []) pages ∧
    ((tail = [] ∧ length pages = n) ∨ (∃ r, tail = [r] ∧ stops r)) ∧
    collected (preload_loop n before_id acc log) = acc ++ concat pages ∧
    cursor (preload_loop n before_id acc log) =
      default before_id (last (cursor_after <$> pages)).
Proof.
  induction n as [|n IH]; intros before_id acc log.
  - exists [], []. simpl. rewrite !app_nil_r.
    repeat split; [constructor|by left].
  - simpl. set (r := server (length log) before_id).
    assert (∀ l : list record, stops r →
            ∃ (pages : list (list record)) (tail : list response),
              log ++ [(before_id, r)] =
                log ++ zip (before_id :: (cursor_after <$> pages))
                         ((Response 200 <$> pages) ++ tail) ∧
              Forall (λ page, page ≠ []) pages ∧
              ((tail = [] ∧ length pages = S n) ∨
               (∃ r, tail = [r] ∧ stops r)) ∧
              l = l ++ concat pages ∧
              before_id =
                default before_id (last (cursor_after <$> pages)))
      as Hstop.
    { intros l Hr. exists [], [r]. simpl. rewrite app_nil_r.
      repeat split; [constructor|right; by exists r]. }
    destruct r as [|code body] eqn:Hr; simpl.
    + apply Hstop. by left.
    + destruct (decide (code ≠ 200%Z)) as [Hne|Heq].
      * apply Hstop. right. exists code, body. split; [reflexivity|by left].
      * assert (code = 200%Z) as -> by lia.
        destruct body as [|first rest].
        -- apply Hstop. right. exists 200%Z, []. split; [reflexivity|by right].
        -- destruct (IH (Some (id_of (List.last (first :: rest) first)))
                       (acc ++ first :: rest)
                       (log ++ [(before_id, Response 200 (first :: rest))]))
             as (pages & tail & Hlog & Hne' & Hend & Hacc & Hcur).
           exists ((first :: rest) :: pages), tail.
           split; [|split; [|split; [|split]]].
           ++ rewrite Hlog. rewrite <- app_assoc. simpl.
              unfold cursor_after at 2. by rewrite last_default.
           ++ by constructor.
           ++ destruct Hend as [[-> Hn]|Hend]; [left|by right].
              split; [reflexivity|simpl; lia].
           ++ rewrite Hacc. simpl. by rewrite <- app_assoc.
           ++ rewrite Hcur. rewrite fmap_cons, last_cons.
              destruct (last (cursor_after <$> pages)); simpl; [reflexivity|].
              unfold cursor_after. by rewrite last_default.
Qed.

(** For non-empty pages, the cursor after the last page is the cursor
    after their concatenation. *)
Lemma cursor_after_concat (pages : list (list record)) :
  Forall (λ page, page ≠ []) pages →
  default None (last (cursor_after <$> pages)) = cursor_after (concat pages).
Proof.
  induction pages as [|page pages IH] using rev_ind; [reflexivity|].
  intros Hne. apply Forall_app in Hne as [Hne Hpage].
  apply Forall_cons in Hpage as [Hpage _].
  rewrite fmap_app, concat_app. simpl. rewrite last_snoc, app_nil_r. simpl.
  destruct page as [|first rest]; [done|].
  by rewrite cursor_after_app, <- (app_nil_l (first :: rest)), cursor_after_app.
Qed.


(** When no request raises, the marketplace preload leaves the session's
    cursor at the id of the last record collected ([None] if nothing
    was). *)
Theorem market_preload_cursor (c : option Id)
    (log : list (option Id * response)) :
  (∀ n before_id, server n before_id ≠ ConnectionError) →
  cursor_tracks (market_preload (mk_session [] c) log).1.
Proof.
  intros Hup. unfold cursor_tracks, market_preload.
  cbn [listings last_id fst].
  assert (raised (preload_loop 6 None [] log) = false) as ->.
  { generalize 6%nat (@None Id) (@nil record) log.
    intros n. induction n as [|n IH]; intros b acc l; [reflexivity|]. simpl.
    destruct (server (length l) b) as [|code body] eqn:Hs;
      [by apply Hup in Hs|]. simpl.
    destruct (decide (code ≠ 200%Z)); [reflexivity|].
    destruct body; [reflexivity|apply IH]. }
  destruct (preload_loop_trace 6 None [] log)
    as (pages & tail & _ & Hne & _ & Hacc & Hcur).
  rewrite Hcur, Hacc. cbn [app].
  rewrite <- (cursor_after_concat pages Hne).
  by destruct (last (cursor_after <$> pages)).
Qed.

(** In the scouting page the cursor always identifies the last record of
    the session: refreshing establishes this, and the preload and "load
    more" keep it, whatever the server answers. *)
Theorem scouting_cursor_tracks (s : session)
    (log : list (option Id * response)) :
  cursor_tracks (refresh s) ∧
  (cursor_tracks s →
   cursor_tracks (scouting_preload s log).1 ∧
   cursor_tracks (scouting_load_more s log).1).
Proof.
  split; [reflexivity|]. intros Htrack. split.
  - unfold scouting_preload. destruct s as [[|x l] c]; [|exact Htrack].
    unfold cursor_tracks in *. cbn [listings last_id fst] in *.
    change (cursor_after []) with (@None Id) in Htrack. subst c.
    destruct (preload_loop_trace 3 None [] log)
      as (pages & tail & _ & Hne & _ & Hacc & Hcur).
    rewrite Hcur, Hacc. cbn [app].
    rewrite <- (cursor_after_concat pages Hne).
    by destruct (last (cursor_after <$> pages)).
  - unfold scouting_load_more. destruct s as [[|x l] c]; [exact Htrack|].
    cbn [listings last_id].
    destruct (load_listings _) as [[|first rest]|]; try exact Htrack.
    unfold cursor_tracks. cbn [listings last_id fst].
    by rewrite (cursor_after_app (x :: l) first rest).
Qed.

(** "Load more", pressed on a session that has records, makes exactly one
    request, for the page before the last record of the session (in the
    scouting page: before the session's cursor).  A non-empty page with
    status 200 is appended whole, with no check for records already
    present; any other response leaves the records as they were. *)
Theorem load_more_appends_one_page (x : record) (l : list record)
    (c : option Id) (log : list (option Id * response)) :
  ((market_load_more (mk_session (x :: l) c) log).2 =
     log ++ [(cursor_after (x :: l),
              server (length log) (cursor_after (x :: l)))] ∧
   listings (market_load_more (mk_session (x :: l) c) log).1 =
     (x :: l) ++
     default [] (load_listings (server (length log) (cursor_after (x :: l))))) ∧
  ((scouting_load_more (mk_session (x :: l) c) log).2 =
     log ++ [(c, server (length log) c)] ∧
   listings (scouting_load_more (mk_session (x :: l) c) log).1 =
     (x :: l) ++ default [] (load_listings (server (length log) c))).
Proof.
  split.
  - unfold market_load_more, market_sync. simpl listings.
    rewrite last_default. cbn [last_id listings].
    assert (cursor_after (x :: l) = Some (id_of (List.last (x :: l) x))) as ->.
    { unfold cursor_after. by rewrite last_default. }
    destruct (load_listings _) as [[|first rest]|]; simpl;
      by rewrite ?app_nil_r.
  - unfold scouting_load_more. simpl.
    destruct (load_listings _) as [[|first rest]|]; simpl;
      by rewrite ?app_nil_r.
Qed.

End Preload.

(** *** Concrete runs: records are numbers and are their own identifiers *)

(** Two pages, then an empty one. *)
Definition two_pages (n : nat) (before_id : option Z) : response Z :=
  match n, before_id with
  | 0%nat, None => Response Z 200 [1; 2]%Z
  | 1%nat, Some 2%Z => Response Z 200 [3]%Z
  | _, _ => Response Z 200 []
  end.

(** A page, then a server error. *)
Definition page_then_error (n : nat) (before_id : option Z) : response Z :=
  match n with
  | 0%nat => Response Z 200 [1; 2]%Z
  | _ => Response Z 500 [7]%Z
  end.

(** Every page has one record. *)
Definition endless (n : nat) (before_id : option Z) : response Z :=
  Response Z 200 [Z.of_nat n].

Example market_two_pages :
  market_preload Z Z id two_pages (mk_session Z Z [] None) [] =
  (mk_session Z Z [1; 2; 3]%Z (Some 3%Z),
   [ (None, Response Z 200 [1; 2]%Z);
     (Some 2%Z, Response Z 200 [3]%Z);
     (Some 3%Z, Response Z 200 []) ]).
Proof. reflexivity. Qed.

Example scouting_page_then_error :
  scouting_preload Z Z id page_then_error (mk_session Z Z [] None) [] =
  (mk_session Z Z [1; 2]%Z (Some 2%Z),
   [ (None, Response Z 200 [1; 2]%Z);
     (Some 2%Z, Response Z 500 [7]%Z) ]).
Proof. reflexivity. Qed.

Example market_endless :
  (market_preload Z Z id endless (mk_session Z Z [] None) []).1 =
  mk_session Z Z [0; 1; 2; 3; 4; 5]%Z (Some 5%Z).
Proof. reflexivity. Qed.

Example scouting_endless :
  (scouting_preload Z Z id endless (mk_session Z Z [] None) []).1 =
  mk_session Z Z [0; 1; 2]%Z (Some 2%Z).
Proof. reflexivity. Qed.

Lemma market_preload_cursor_witness :
  cursor_tracks Z Z id
    (market_preload Z Z id endless (mk_session Z Z [] None) []).1.
Proof.
  apply (market_preload_cursor Z Z id endless None []).
  intros n before_id. discriminate.
Defined.

Example market_load_more_keeps_duplicates :
  market_load_more Z Z id endless (mk_session Z Z [0; 0]%Z None)
    [(None, Response Z 200 [0]%Z)] =
  (mk_session Z Z [0; 0; 1]%Z (Some 0%Z),
   [(None, Response Z 200 [0]%Z); (Some 0%Z, Response Z 200 [1]%Z)]).
Proof. reflexivity. Qed.

End Pager.

(** ** One row of the marketplace table (lines 221-232)

    The evaluator's result for a listing and the two floor-price lookups
    made with it. *)

Module MarketRow.

(** The cells of a row the loop body reads.  [positions_raw] is [None]
    when the cell is not a list. *)
Record row := mk_row {
  positions_raw : option (list string);
  current_OVR : Z;
  age : Z;
  stats : gmap string Q
}.

(** The result dict once the two floor prices have been added to it. *)
Record processed := mk_processed {
  evaluation : AltPosition.result;
  floor_primary : FloorCache.json;
  floor_alt : FloorCache.json
}.

(** [primary, secondary, tertiary = (pos_list + [None, None, None])[:3]] *)
Definition split_positions (pos_list : list string) :
    option string * option string * option string :=
  match (Some <$> pos_list) ++ [None; None; None] with
  | a :: b :: c :: _ => (a, b, c)
  | _ => (None, None, None)
  end.

Section Row.

Variable weightings_dict : list (string * list (string * Q)).
Variable familiarity_dict : gmap (string * string) Q.
Variable md5_hexdigest : string → string.
Variable requests_get : nat → string → FloorCache.response.

(** The evaluator's call of line 227. *)
Definition evaluate (r : row) : AltPosition.result :=
  let '(primary, secondary, tertiary) :=
    split_positions (default [] (positions_raw r)) in
  AltPosition.calculate_best_alt_ovr weightings_dict familiarity_dict
    (stats r) primary secondary tertiary (current_OVR r).

(** The loop body; [now1] and [now2] are the clock readings of the two
    lookups.  [None] when a lookup raises, which ends the script. *)
Definition process_row (r : row) (now1 now2 : Q) (st : FloorCache.state) :
    option processed * FloorCache.state :=
  let primary := (split_positions (default [] (positions_raw r))).1.1 in
  let result := evaluate r in
  match FloorCache.get_floor_price md5_hexdigest requests_get
          (Some (age r)) (Some (current_OVR r)) primary now1 st with
  | (FloorCache.Raise _, st) => (None, st)
  | (FloorCache.Return fp, st) =>
      match FloorCache.get_floor_price md5_hexdigest requests_get
              (Some (age r)) (Some (AltPosition.best_alt_ovr result))
              (AltPosition.best_alt_position result) now2 st with
      | (FloorCache.Raise _, st) => (None, st)
      | (FloorCache.Return fa, st) => (Some (mk_processed result fp fa), st)
      end
  end.


Lemma evaluate_primary (r : row) :
  evaluate r =
  AltPosition.calculate_best_alt_ovr weightings_dict familiarity_dict
    (stats r) (split_positions (default [] (positions_raw r))).1.1
    (split_positions (default [] (positions_raw r))).1.2
    (split_positions (default [] (positions_raw r))).2 (current_OVR r).
Proof.
  unfold evaluate. by destruct (split_positions _) as [[a b] c].
Qed.



(** Started on a cache in which every entry has a price field, a row never
    ends the script with [KeyError], and every entry has a price field
    afterwards: rows can be processed one after another. *)
Theorem row_on_priced_cache (r : row) (now1 now2 : Q)
    (st : FloorCache.state) :
  FloorCache.all_priced st →
  ∃ out st', process_row r now1 now2 st = (Some out, st') ∧
             FloorCache.all_priced st'.
Proof.
  intros Hall. unfold process_row.
  destruct (FloorCache.all_priced_step md5_hexdigest requests_get
              (Some (age r)) (Some (current_OVR r))
              (split_positions (default [] (positions_raw r))).1.1 now1 st
              Hall) as (fp & st1 & -> & Hall1).
  destruct (FloorCache.all_priced_step md5_hexdigest requests_get
              (Some (age r))
              (Some (AltPosition.best_alt_ovr (evaluate r)))
              (AltPosition.best_alt_position (evaluate r)) now2 st1
              Hall1) as (fa & st2 & -> & Hall2).
  by eexists _, _.
Qed.

End Row.

(** *** Concrete rows, on the example table of the evaluator *)

(** The example centre-back at overall 80: no position rates higher. *)
Definition settled_row : row :=
  mk_row (Some ["CB"; "CDM"]) 80 24 AltPosition.example_stats.


Example settled_row_processed :
  process_row AltPosition.example_weightings AltPosition.example_familiarity
    FloorCache.plain_key FloorCache.remote_listing settled_row 1000%Q 1001%Q
    FloorCache.empty_state =
  (Some (mk_processed (AltPosition.mk_result (Some "CB") 80 0)
           (FloorCache.JNum 4%Q) (FloorCache.JNum 4%Q)),
   FloorCache.mk_state
     {[ "24-80-CB" :=
          FloorCache.mk_entry (Some (FloorCache.JNum 4%Q)) (Some 1000%Q) ]}
     {[ "24-80-CB" :=
          FloorCache.mk_entry (Some (FloorCache.JNum 4%Q)) (Some 1000%Q) ]}
     [FloorCache.floor_url 24 80 "CB"]).
Proof. vm_compute. reflexivity. Qed.



Lemma row_on_priced_cache_witness :
  ∃ out st',
    process_row AltPosition.example_weightings AltPosition.example_familiarity
      FloorCache.plain_key FloorCache.remote_down settled_row 9000%Q 9001%Q
      FloorCache.priced_state = (Some out, st') ∧
    FloorCache.all_priced st'.
Proof.
  exact (row_on_priced_cache AltPosition.example_weightings
           AltPosition.example_familiarity FloorCache.plain_key
           FloorCache.remote_down settled_row 9000%Q 9001%Q
           FloorCache.priced_state FloorCache.priced_state_all_priced).
Defined.

End MarketRow.

(** ** Display helpers of the scouting page *)

Module Scouting.
Import Numeric.

(** [int(x)] on a number: truncation toward zero. *)
Definition py_int (q : Q) : Z := Z.quot (Qnum q) (Zpos (Qden q)).

(** [f"{x:.0f}"]: the nearest integer, ties to even, and the sign of a
    negative number is kept when it rounds to zero. *)
Definition format_f0 (q : Q) : string :=
  if Qlt_le_dec q 0 then "-" +:+ pretty (- py_round q)%Z
  else pretty (py_round q).

(** *** [hex_gradient] and [delta_color] (lines 206-226) *)

(** The locals [r], [g], [b] of [hex_gradient]. *)
Definition gradient_rgb (val min_val max_val : Z) : Z * Z * Z :=
  let val := Z.max min_val (Z.min val max_val) in
  let ratio := (inject_Z (val - min_val) / inject_Z (max_val - min_val))%Q in
  let mix (start stop : Z) :=
    py_int (inject_Z start + inject_Z (stop - start) * ratio)%Q in
  (mix 112 0, mix 219 77, mix 112 0)%Z.

(** [None] is the [ZeroDivisionError] of a range of width 0. *)
Definition hex_gradient (val min_val max_val : Z) : option string :=
  if decide (max_val = min_val) then None
  else
    let '(r, g, b) := gradient_rgb val min_val max_val in
    Some ("background-color: rgb(" +:+ pretty r +:+ ", " +:+ pretty g
          +:+ ", " +:+ pretty b +:+ "); color: white;").

(** [delta_color] calls [hex_gradient] with its defaults 1 and 10. *)
Definition delta_color (val : Z) : option string :=
  if decide (0 < val)%Z then hex_gradient val 1 10 else Some EmptyString.

(** *** [get_div_share] and [get_div_clause] (lines 171-186) *)

(** An element of [offerPreferences]; a field is [None] when the key is
    missing. *)
Record preference := mk_preference {
  div : option Z;
  minRevenueShare : option Z
}.

(** An element of [offerClauses]. *)
Record clause := mk_clause {
  type : option string;
  nbMatches : option Z;
  revenueSharePenalty : option Z
}.

(** The text returned when nothing matches: an en dash. *)
Definition dash : string := "–".

(** [f"{pref.get('minRevenueShare', 0) / 100:.0f}%"] *)
Definition share_text (pref : preference) : string :=
  format_f0 (inject_Z (default 0%Z (minRevenueShare pref)) / 100)%Q +:+ "%".

(** [f"{matches} (+{penalty / 100:.0f}%)"] *)
Definition clause_text (matches : Z) (c : clause) : string :=
  pretty matches +:+ " (+"
  +:+ format_f0 (inject_Z (default 0%Z (revenueSharePenalty c)) / 100)%Q
  +:+ "%)".

(** The [for] loop of [get_div_share]: the first [return] reached. *)
Fixpoint first_share (preferences : list preference) (d : Z) : option string :=
  match preferences with
  | [] => None
  | pref :: rest =>
      if decide (div pref = Some d) then Some (share_text pref)
      else first_share rest d
  end.

(** [preferences] is [None] when the cell is not a list. *)
Definition get_div_share (preferences : option (list preference)) (d : Z) :
    string :=
  match preferences with
  | Some prefs => default dash (first_share prefs d)
  | None => dash
  end.

Fixpoint first_clause (clauses : list clause) : option string :=
  match clauses with
  | [] => None
  | c :: rest =>
      if decide (type c = Some "MINIMUM_PLAYING_TIME") then
        match nbMatches c with
        | Some matches => Some (clause_text matches c)
        | None => first_clause rest
        end
      else first_clause rest
  end.

Definition get_div_clause (clauses : option (list clause)) : string :=
  match clauses with
  | Some cs => default dash (first_clause cs)
  | None => dash
  end.

(** A clause [get_div_clause] can answer with. *)
Definition usable (c : clause) : Prop :=
  type c = Some "MINIMUM_PLAYING_TIME" ∧ is_Some (nbMatches c).

Example format_ties :
  format_f0 (1050 / 100)%Q = "10" ∧ format_f0 (1150 / 100)%Q = "12" ∧
  format_f0 (-30 / 100)%Q = "-0" ∧ format_f0 (0 / 100)%Q = "0".
Proof. vm_compute. done. Qed.

Example gradient_ends :
  hex_gradient 1 1 10 = Some "background-color: rgb(112, 219, 112); color: white;" ∧
  hex_gradient 10 1 10 = Some "background-color: rgb(0, 77, 0); color: white;" ∧
  hex_gradient 4 1 10 = Some "background-color: rgb(74, 171, 74); color: white;".
Proof. vm_compute. done. Qed.

Lemma clamp_cases (val : Z) :
  let c := Z.max 1 (Z.min val 10) in
  (c = 1 ∨ c = 2 ∨ c = 3 ∨ c = 4 ∨ c = 5 ∨ c = 6 ∨ c = 7 ∨ c = 8 ∨ c = 9
   ∨ c = 10)%Z.
Proof. simpl. lia. Qed.

Lemma gradient_rgb_clamp (val : Z) :
  gradient_rgb val 1 10 = gradient_rgb (Z.max 1 (Z.min val 10)) 1 10.
Proof.
  unfold gradient_rgb.
  assert (Z.max 1 (Z.min (Z.max 1 (Z.min val 10)) 10) = Z.max 1 (Z.min val 10))
    as -> by lia.
  reflexivity.
Qed.

Ltac by_shade val H :=
  destruct (clamp_cases val) as [H|[H|[H|[H|[H|[H|[H|[H|[H|H]]]]]]]]].

(** Whatever the delta, the three channels stay between the dark and the
    light end of the gradient, so the style is a valid colour. *)
Theorem gradient_within_palette (val : Z) :
  (0 ≤ (gradient_rgb val 1 10).1.1 ≤ 112)%Z ∧
  (77 ≤ (gradient_rgb val 1 10).1.2 ≤ 219)%Z ∧
  (0 ≤ (gradient_rgb val 1 10).2 ≤ 112)%Z.
Proof.
  rewrite gradient_rgb_clamp.
  by_shade val H; rewrite H; vm_compute; repeat split; discriminate.
Qed.

(** A larger delta never gives a lighter cell: no channel increases. *)
Theorem gradient_darkens (val val' : Z) :
  (val ≤ val')%Z →
  ((gradient_rgb val' 1 10).1.1 ≤ (gradient_rgb val 1 10).1.1)%Z ∧
  ((gradient_rgb val' 1 10).1.2 ≤ (gradient_rgb val 1 10).1.2)%Z ∧
  ((gradient_rgb val' 1 10).2 ≤ (gradient_rgb val 1 10).2)%Z.
Proof.
  intros Hle. rewrite (gradient_rgb_clamp val), (gradient_rgb_clamp val').
  by_shade val H; by_shade val' H'; rewrite H, H';
    first [vm_compute; repeat split; discriminate | exfalso; lia].
Qed.

(** [delta_color] never raises; it leaves the cell unstyled exactly for a
    delta of 0 or less, and every delta of 10 or more gets the style of
    10. *)
Theorem delta_color_cases (val : Z) :
  is_Some (delta_color val) ∧
  (delta_color val = Some EmptyString ↔ (val ≤ 0)%Z) ∧
  ((10 ≤ val)%Z → delta_color val = delta_color 10).
Proof.
  unfold delta_color.
  destruct (decide (0 < val)%Z) as [Hpos|Hnpos].
  - unfold hex_gradient. simpl decide.
    destruct (gradient_rgb val 1 10) as [[r g] b] eqn:Hrgb.
    split; [by eexists|]. split.
    + split; [discriminate|lia].
    + intros Hbig. simpl decide.
      rewrite gradient_rgb_clamp in Hrgb.
      replace (Z.max 1 (Z.min val 10)) with 10%Z in Hrgb by lia.
      by rewrite Hrgb.
  - split; [by eexists|]. split; [split; [lia|reflexivity]|lia].
Qed.

Lemma first_share_none (prefs : list preference) (d : Z) :
  Forall (λ q, div q ≠ Some d) prefs → first_share prefs d = None.
Proof.
  induction 1 as [|q prefs Hq _ IH]; [reflexivity|]. simpl.
  by rewrite decide_False.
Qed.

(** [get_div_share] answers with the first preference for the division,
    whatever follows it, and with a dash when the cell is not a list or
    holds no preference for the division. *)
Theorem get_div_share_first_match (d : Z) :
  get_div_share None d = dash ∧
  (∀ prefs, Forall (λ q, div q ≠ Some d) prefs →
            get_div_share (Some prefs) d = dash) ∧
  (∀ before pref after,
     Forall (λ q, div q ≠ Some d) before → div pref = Some d →
     get_div_share (Some (before ++ pref :: after)) d = share_text pref).
Proof.
  split; [reflexivity|]. split.
  - intros prefs Hnone. unfold get_div_share.
    by rewrite first_share_none.
  - intros before pref after Hnone Hd. unfold get_div_share.
    induction Hnone as [|q before Hq _ IH]; simpl.
    + by rewrite decide_True.
    + by rewrite decide_False.
Qed.

Lemma first_clause_none (cs : list clause) :
  Forall (λ c, ¬ usable c) cs → first_clause cs = None.
Proof.
  induction 1 as [|c cs Hc _ IH]; [reflexivity|]. simpl.
  destruct (decide (type c = Some "MINIMUM_PLAYING_TIME")) as [Ht|_];
    [|exact IH].
  destruct (nbMatches c) as [m|] eqn:Hm; [|exact IH].
  exfalso. apply Hc. split; [exact Ht|]. rewrite Hm. by eexists.
Qed.

(** [get_div_clause] answers with the first minimum-playing-time clause
    that has a number of matches: clauses of other types, and
    minimum-playing-time clauses without the number, are passed over. *)
Theorem get_div_clause_first_usable :
  get_div_clause None = dash ∧
  (∀ cs, Forall (λ c, ¬ usable c) cs → get_div_clause (Some cs) = dash) ∧
  (∀ before c matches after,
     Forall (λ c, ¬ usable c) before →
     type c = Some "MINIMUM_PLAYING_TIME" → nbMatches c = Some matches →
     get_div_clause (Some (before ++ c :: after)) = clause_text matches c).
Proof.
  split; [reflexivity|]. split.
  - intros cs Hnone. unfold get_div_clause. by rewrite first_clause_none.
  - intros before c matches after Hnone Ht Hm. unfold get_div_clause.
    induction Hnone as [|q before Hq _ IH]; simpl.
    + rewrite decide_True by exact Ht. by rewrite Hm.
    + destruct (decide (type q = Some "MINIMUM_PLAYING_TIME")) as [Hqt|_];
        [|exact IH].
      destruct (nbMatches q) as [m|] eqn:Hqm; [|exact IH].
      exfalso. apply Hq. split; [exact Hqt|]. rewrite Hqm. by eexists.
Qed.

Lemma py_round_comp (q q' : Q) : (q == q')%Q → py_round q = py_round q'.
Proof.
  intros E. unfold py_round. rewrite (Qfloor_comp _ _ E).
  assert (q - inject_Z (Qfloor q') == q' - inject_Z (Qfloor q'))%Q as E'
    by (rewrite E; reflexivity).
  by rewrite (Qcompare_comp _ _ E' _ _ (Qeq_refl (1 # 2))).
Qed.

Lemma py_round_inject_Z (k : Z) : py_round (inject_Z k) = k.
Proof.
  unfold py_round. rewrite Qfloor_Z.
  destruct (Qcompare_spec (inject_Z k - inject_Z k) (1 # 2)) as [He|Hl|Hg];
    [lra|reflexivity|lra].
Qed.

(** A revenue share stored in hundredths of a percent prints as the whole
    percentage it stands for: 100 k is shown as "k%". *)
Theorem whole_percent_share_text (pref : preference) (k : Z) :
  minRevenueShare pref = Some (100 * k)%Z → (0 ≤ k)%Z →
  share_text pref = pretty k +:+ "%".
Proof.
  intros Hshare Hk. unfold share_text, format_f0. rewrite Hshare. simpl default.
  assert (inject_Z (100 * k) / 100 == inject_Z k)%Q as E.
  { rewrite inject_Z_mult. change (inject_Z 100) with 100%Q. field. }
  rewrite (py_round_comp _ _ E), py_round_inject_Z.
  destruct (Qlt_le_dec _ 0) as [Hneg|_]; [|reflexivity].
  exfalso. rewrite E in Hneg. change 0%Q with (inject_Z 0) in Hneg.
  rewrite <- Zlt_Qlt in Hneg. lia.
Qed.

Lemma gradient_darkens_witness :
  ((gradient_rgb 7 1 10).1.1 ≤ (gradient_rgb 3 1 10).1.1)%Z ∧
  ((gradient_rgb 7 1 10).1.2 ≤ (gradient_rgb 3 1 10).1.2)%Z ∧
  ((gradient_rgb 7 1 10).2 ≤ (gradient_rgb 3 1 10).2)%Z.
Proof. apply (gradient_darkens 3 7). lia. Defined.

Lemma whole_percent_share_text_witness :
  share_text (mk_preference (Some 8%Z) (Some 1500%Z)) = "15%".
Proof.
  apply (whole_percent_share_text (mk_preference (Some 8%Z) (Some 1500%Z)) 15).
  - reflexivity.
  - lia.
Defined.

End Scouting.
